(** * wallpapererer: the crawl / catalog / reconcile core

  A shallow embedding of the three scripts that keep the local mirror
  consistent:

  - [build_date_catalog.py]: month range, date assignment, catalog merge
    and catalog write;
  - [scrape_bing.py]: the resumable download loop with its two source
    orders;
  - [prepare_sync.py]: the reconciliation of [scrape_state.json] with the
    catalog and the files on disk.

  Python strings are [string], one character per code point (strings
  with a code point above 255 are outside the model), Python sets of
  strings are [gset string], the wallpaper directory is a finite map from
  file names to byte strings, and an uncaught Python exception is the
  result [None]. *)

From Stdlib Require Import ZArith Lia Ascii Sorted Permutation.
From Stdlib Require String.
From stdpp Require Import gmap strings list list_numbers sorting.

(** * Decimal text *)

Module Decimal.

(** [int(s)] for a [str], base 10, as CPython reads it: blanks are skipped
    on both sides, one sign may come first, and then come decimal digits,
    where a single underscore may stand between two digits.  Anything else
    raises [ValueError], here [None].  Among the code points below 256 the
    decimal digits are ["0"] to ["9"], and the blanks are the code points
    9 to 13, 32, 133 and 160. *)
Definition digit_of_ascii (c : ascii) : option Z :=
  let n := Z.of_N (N_of_ascii c) in
  if ((48 <=? n) && (n <=? 57))%Z then Some (n - 48)%Z else None.

Definition is_space (c : ascii) : bool :=
  let n := Z.of_N (N_of_ascii c) in
  (((9 <=? n) && (n <=? 13)) || (n =? 32) || (n =? 133) || (n =? 160))%Z.

Fixpoint all_space (s : string) : bool :=
  match s with
  | EmptyString => true
  | String c s' => is_space c && all_space s'
  end.

Fixpoint lstrip (s : string) : string :=
  match s with
  | EmptyString => s
  | String c s' => if is_space c then lstrip s' else s
  end.

(** The digits after the sign.  [after_digit] tells whether the character
    before was a digit: only then may the text end, an underscore follow,
    or the trailing blanks start. *)
Fixpoint int_digits (acc : Z) (after_digit : bool) (s : string) : option Z :=
  match s with
  | EmptyString => if after_digit then Some acc else None
  | String c s' =>
      match digit_of_ascii c with
      | Some d => int_digits (10 * acc + d)%Z true s'
      | None =>
          if after_digit && Ascii.eqb c "_" then int_digits acc false s'
          else if after_digit && is_space c && all_space s' then Some acc
          else None
      end
  end.

Definition int_of_string (s : string) : option Z :=
  match lstrip s with
  | EmptyString => None
  | String c s' =>
      if Ascii.eqb c "+" then int_digits 0 false s'
      else if Ascii.eqb c "-" then Z.opp <$> int_digits 0 false s'
      else int_digits 0 false (String c s')
  end.

Definition ascii_of_digit (d : Z) : ascii :=
  ascii_of_N (Z.to_N (48 + d mod 10)).

(** ["%02d"] and ["%04d"] for the non-negative values below 100 and
    below 10000 that dates are made of. *)
Definition pad2 (n : Z) : string :=
  String (ascii_of_digit (n / 10)) (String (ascii_of_digit n) EmptyString).

Definition pad4 (n : Z) : string :=
  String (ascii_of_digit (n / 1000))
    (String (ascii_of_digit (n / 100))
       (String (ascii_of_digit (n / 10))
          (String (ascii_of_digit n) EmptyString))).

End Decimal.

(** * Month keys and [generate_months] *)

Module Months.
Import Decimal.

(** [datetime(year, month, 1)]: only the year and the month vary.  The
    constructor raises [ValueError] outside 1..9999 and 1..12. *)
Definition datetime : Type := (Z * Z)%type.

Definition mk_datetime (year month : Z) : option datetime :=
  if ((1 <=? year) && (year <=? 9999) && (1 <=? month) && (month <=? 12))%Z
  then Some (year, month) else None.

(** The inner [parse]: [datetime(int(s[:4]), int(s[4:6]), 1)]. *)
Definition parse (s : string) : option datetime :=
  match int_of_string (String.substring 0 4 s) with
  | None => None
  | Some year =>
      match int_of_string (String.substring 4 2 s) with
      | None => None
      | Some month => mk_datetime year month
      end
  end.

(** [cur.strftime("%Y%m")], the year on four digits as the Python
    documentation gives it (some C libraries print a year below 1000
    without the leading zeros). *)
Definition strftime (d : datetime) : string :=
  pad4 (fst d) +:+ pad2 (snd d).

(** [cur <= stop] on first-of-month datetimes. *)
Definition dt_leb (a b : datetime) : bool :=
  ((fst a <? fst b) || ((fst a =? fst b) && (snd a <=? snd b)))%Z.

(** The step at the end of the loop body; [replace] raises when the year
    leaves 1..9999. *)
Definition next_month (cur : datetime) : option datetime :=
  if (snd cur =? 12)%Z then mk_datetime (fst cur + 1) 1
  else mk_datetime (fst cur) (snd cur + 1).

(** Months since year 0, used to bound the number of iterations. *)
Definition month_index (d : datetime) : Z := 12 * fst d + (snd d - 1).

Definition key_of_index (i : Z) : string := strftime (i / 12, i mod 12 + 1)%Z.

(** The [while cur <= stop] loop.  [fuel] bounds the iterations; the
    caller passes one more than the distance between the two months, and
    [months_loop_fuel] below shows that the bound is never the reason for
    a [None]. *)
Fixpoint months_loop (fuel : nat) (cur stop : datetime) : option (list string) :=
  if dt_leb cur stop then
    match fuel with
    | O => None
    | S fuel' =>
        match next_month cur with
        | None => None
        | Some cur' =>
            match months_loop fuel' cur' stop with
            | None => None
            | Some months => Some (strftime cur :: months)
            end
        end
    end
  else Some [].

Definition generate_months (start end_ : string) : option (list string) :=
  match parse start with
  | None => None
  | Some cur =>
      match parse end_ with
      | None => None
      | Some stop =>
          months_loop (Z.to_nat (month_index stop - month_index cur + 1)) cur stop
      end
  end.

End Months.

(** * The archive index ([get_image_ids]) *)

Module Archive.

(** [href.rsplit("/", 1)[-1]]: the text after the last slash. *)
Fixpoint after_last_slash (acc s : string) : string :=
  match s with
  | EmptyString => acc
  | String c s' =>
      if Ascii.eqb c "/"%char then after_last_slash EmptyString s'
      else after_last_slash (acc +:+ String c EmptyString) s'
  end.

(** The loop over the anchors: an identifier is kept when it is not empty
    and has not been seen. *)
Fixpoint collect_ids (seen : gset string) (hrefs : list string) : list string :=
  match hrefs with
  | [] => []
  | href :: rest =>
      let img_id := after_last_slash EmptyString href in
      if decide (img_id ≠ EmptyString ∧ img_id ∉ seen)
      then img_id :: collect_ids ({[img_id]} ∪ seen) rest
      else collect_ids seen rest
  end.

(** [page] is what [get_with_retry] returned for the month's archive page:
    [None] for a 404 or after the retries are used up, otherwise the
    [href]s of the anchors that match [^/detail/us/], in page order. *)
Definition get_image_ids (page : option (list string)) : list string :=
  match page with
  | None => []
  | Some hrefs => collect_ids ∅ hrefs
  end.

End Archive.

(** * The date catalog ([build_date_catalog.py]) *)

Module Catalog.
Import Decimal.

(** One line of [image_dates.csv]. *)
Record CatalogRow := mkRow {
  date : string;
  yyyymm : string;
  image_id : string;
  filename : string
}.

#[global] Instance CatalogRow_eq_dec : EqDecision CatalogRow.
Proof. solve_decision. Defined.

Definition is_leap (year : Z) : bool :=
  ((year mod 4 =? 0) && (negb (year mod 100 =? 0) || (year mod 400 =? 0)))%Z.

Definition days_in_month (year month : Z) : Z :=
  if (month =? 2)%Z then (if is_leap year then 29 else 28)
  else if ((month =? 4) || (month =? 6) || (month =? 9) || (month =? 11))%Z
       then 30 else 31.

(** [date(year, month, day)], which raises [ValueError] on a day that the
    month does not have. *)
Definition mk_date (year month day : Z) : option (Z * Z * Z) :=
  if ((1 <=? year) && (year <=? 9999) && (1 <=? month) && (month <=? 12)
      && (1 <=? day) && (day <=? days_in_month year month))%Z
  then Some (year, month, day) else None.

(** [d.isoformat()]. *)
Definition isoformat (d : Z * Z * Z) : string :=
  let '(year, month, day) := d in
  pad4 year +:+ "-" +:+ pad2 month +:+ "-" +:+ pad2 day.

(** The body of the [for position, image_id in enumerate(image_ids, 1)]
    loop, from [position] on. *)
Fixpoint assign_rows (year month n : Z) (key : string) (position : Z)
    (image_ids : list string) : option (list CatalogRow) :=
  match image_ids with
  | [] => Some []
  | image_id :: rest =>
      let day := (n - position + 1)%Z in
      match mk_date year month day with
      | None => None
      | Some d =>
          match assign_rows year month n key (position + 1) rest with
          | None => None
          | Some rows =>
              Some ({| date := isoformat d;
                       yyyymm := key;
                       image_id := image_id;
                       filename := key +:+ "_" +:+ image_id +:+ ".jpg" |} :: rows)
          end
      end
  end.

Definition assign_dates (key : string) (image_ids : list string)
    : option (list CatalogRow) :=
  match int_of_string (String.substring 0 4 key) with
  | None => None
  | Some year =>
      match int_of_string (String.substring 4 2 key) with
      | None => None
      | Some month =>
          assign_rows year month (Z.of_nat (length image_ids)) key 1 image_ids
      end
  end.

(** The day written in a row's date, [int(date[8:10])]. *)
Definition row_day (r : CatalogRow) : option Z :=
  int_of_string (String.substring 8 2 (date r)).

(** ** The mapping [(yyyymm, image_id) -> row]

    A Python [dict] keeps its keys in insertion order; assigning to a key
    that is already there replaces the value in place. *)
Abbreviation key := (string * string)%type.
Abbreviation dict := (list (key * CatalogRow)).

Definition row_key (r : CatalogRow) : key := (yyyymm r, image_id r).

Fixpoint dict_set (k : key) (v : CatalogRow) (d : dict) : dict :=
  match d with
  | [] => [(k, v)]
  | (k', v') :: d' =>
      if decide (k' = k) then (k, v) :: d' else (k', v') :: dict_set k v d'
  end.

Fixpoint dict_get (k : key) (d : dict) : option CatalogRow :=
  match d with
  | [] => None
  | (k', v') :: d' => if decide (k' = k) then Some v' else dict_get k d'
  end.

Definition dict_values (d : dict) : list CatalogRow := snd <$> d.

(** [load_existing]: [file] is the parsed CSV, [None] when the path does
    not exist. *)
Definition load_existing (file : option (list CatalogRow)) : dict :=
  match file with
  | None => []
  | Some rows => fold_left (λ existing row, dict_set (row_key row) row existing) rows []
  end.

(** Lines 207-212 of [main]: delete the month's keys, then store the new
    rows. *)
Definition purge_month (month : string) (all_rows : dict) : dict :=
  filter (λ kv, kv.1.1 ≠ month) all_rows.

Definition store_rows (new_rows : list CatalogRow) (all_rows : dict) : dict :=
  fold_left (λ acc row, dict_set (row_key row) row acc) new_rows all_rows.

Definition merge_month (month : string) (new_rows : list CatalogRow)
    (all_rows : dict) : dict :=
  store_rows new_rows (purge_month month all_rows).

(** One iteration of [for yyyymm in months] in [main].  [page] is the
    archive page fetched for this month (only looked at when the month is
    not skipped). *)
Definition catalog_month (now_ym : string) (force : bool)
    (page : option (list string)) (all_rows : dict) (month : string)
    : option dict :=
  let month_keys := filter (λ k : key, k.1 = month) (fst <$> all_rows) in
  if bool_decide (month_keys ≠ []) && negb force && String.ltb month now_ym
  then Some all_rows
  else
    let image_ids := Archive.get_image_ids page in
    if bool_decide (image_ids = []) then Some all_rows
    else
      match assign_dates month image_ids with
      | None => None
      | Some new_rows => Some (merge_month month new_rows all_rows)
      end.

(** ** [write_csv] *)

(** [sorted(rows, key=lambda r: r["date"])]: a stable sort on the date
    text.  A row goes in front of the first row whose date is not
    smaller, so rows with equal dates keep their order. *)
Fixpoint insert_row (r : CatalogRow) (l : list CatalogRow) : list CatalogRow :=
  match l with
  | [] => [r]
  | x :: l' =>
      if String.leb (date r) (date x) then r :: l else x :: insert_row r l'
  end.

Definition sorted_by_date (rows : list CatalogRow) : list CatalogRow :=
  foldr insert_row [] rows.

(** A CSV file as its lines, each line the list of its fields. *)
Definition line : Type := list string.
Definition csv_file : Type := list line.

Definition header : line := ["date"; "yyyymm"; "image_id"; "filename"].
Definition row_line (r : CatalogRow) : line :=
  [date r; yyyymm r; image_id r; filename r].

(** What [write_csv] sends to the file: [writeheader], then [writerows]. *)
Definition write_csv (rows : list CatalogRow) : csv_file :=
  header :: (row_line <$> sorted_by_date rows).

(** The points at which the process can be stopped while [write_csv] runs.
    [csv_path.open("w")] truncates the file at the path itself, then the
    lines follow; [Written k] is the moment at which [k] lines have
    reached the file. *)
Inductive write_point := BeforeOpen | Written (k : nat) | Closed.

Definition file_at (old : option csv_file) (rows : list CatalogRow)
    (p : write_point) : option csv_file :=
  match p with
  | BeforeOpen => old
  | Written k => Some (take k (write_csv rows))
  | Closed => Some (write_csv rows)
  end.

(** [main]: [now_ym] is the current month, [pages] gives the archive page
    fetched for a month, [file] is the catalog file as found.  The result is
    the file written; [None] when [generate_months] or [assign_dates]
    raises, in which case the catalog file is not opened. *)
Fixpoint catalog_months (now_ym : string) (force : bool)
    (pages : string → option (list string)) (all_rows : dict)
    (months : list string) : option dict :=
  match months with
  | [] => Some all_rows
  | month :: rest =>
      match catalog_month now_ym force (pages month) all_rows month with
      | None => None
      | Some all_rows' => catalog_months now_ym force pages all_rows' rest
      end
  end.

Definition main (now_ym start end_ : string) (force : bool)
    (pages : string → option (list string)) (file : option (list CatalogRow))
    : option csv_file :=
  match Months.generate_months start end_ with
  | None => None
  | Some months =>
      match catalog_months now_ym force pages (load_existing file) months with
      | None => None
      | Some all_rows => Some (write_csv (dict_values all_rows))
      end
  end.

End Catalog.

(** * The scrape state ([scrape_state.json]) *)

Module State.

(** The three key sets of the state file.  Both scripts turn the JSON
    lists into Python sets on load and write them back sorted, so a state
    is the three sets. *)
Record ScrapeState := mkState {
  done_months : gset string;
  done_images : gset string;
  failed_images : gset string
}.

Definition empty_state : ScrapeState := mkState ∅ ∅ ∅.

(** [load_state]: [None] when [STATE_FILE] does not exist. *)
Definition load_state (file : option ScrapeState) : ScrapeState :=
  match file with
  | Some s => s
  | None => empty_state
  end.

(** The key of an item, [f"{yyyymm}/{image_id}"]. *)
Definition item_key (yyyymm image_id : string) : string :=
  yyyymm +:+ "/" +:+ image_id.

(** The files of the wallpaper directory, by path relative to it. *)
Definition content : Type := list Byte.byte.
Definition Disk : Type := gmap string content.

Definition size (c : content) : Z := Z.of_nat (length c).

End State.

(** * The reconciler ([prepare_sync.py]) *)

Module Reconcile.
Import Catalog State.

Definition MIN_FILE_SIZE : Z := 50000.

Definition big_enough (fs : gmap string content) (path : string) : bool :=
  match fs !! path with
  | Some c => bool_decide (MIN_FILE_SIZE ≤ size c)%Z
  | None => false
  end.

(** [image_is_present]: [high/filename], then [filename]. *)
Definition image_is_present (fs : gmap string content) (filename : string) : bool :=
  big_enough fs ("high/" +:+ filename) || big_enough fs filename.

(** [load_catalog]: [file] is the parsed CSV, [None] when it does not
    exist. *)
Definition load_catalog (file : option (list CatalogRow)) (months : gset string)
    : list CatalogRow :=
  match file with
  | None => []
  | Some rows => filter (λ row, yyyymm row ∈ months) rows
  end.

Definition present_rows (fs : gmap string content) (rows : list CatalogRow)
    : list (string * string) :=
  row_key <$> filter (λ row, image_is_present fs (filename row) = true) rows.

Definition missing_rows (fs : gmap string content) (rows : list CatalogRow)
    : list (string * string) :=
  row_key <$> filter (λ row, image_is_present fs (filename row) = false) rows.

(** [for yyyymm, image_id in present: done_images.add(key)]. *)
Definition mark_present (present : list (string * string)) (s : ScrapeState)
    : ScrapeState :=
  fold_left
    (λ s p, mkState (done_months s)
                    ({[item_key p.1 p.2]} ∪ done_images s)
                    (failed_images s))
    present s.

(** [for yyyymm, image_id in missing: discard from both sets]. *)
Definition unmark_missing (missing : list (string * string)) (s : ScrapeState)
    : ScrapeState :=
  fold_left
    (λ s p, mkState (done_months s)
                    (done_images s ∖ {[item_key p.1 p.2]})
                    (failed_images s ∖ {[item_key p.1 p.2]}))
    missing s.

(** The three statements on [done_months].  The two loops run over Python
    sets; their result does not depend on the iteration order and is
    written with the set operations. *)
Definition update_done_months (this_month : string)
    (months_with_catalog months_with_missing : gset string) (s : ScrapeState)
    : ScrapeState :=
  let dm1 := done_months s ∖ months_with_missing in
  let dm2 := dm1 ∪ filter (λ m, m ≠ this_month)
                          (months_with_catalog ∖ months_with_missing) in
  mkState (dm2 ∖ {[this_month]}) (done_images s) (failed_images s).

(** What one run computes, before anything is written. *)
Record Tally := mkTally {
  catalog_rows : list CatalogRow;
  present : list (string * string);
  missing : list (string * string)
}.

Definition tally (months : list string) (catalog : option (list CatalogRow))
    (fs : gmap string content) : Tally :=
  let rows := load_catalog catalog (list_to_set months) in
  mkTally rows (present_rows fs rows) (missing_rows fs rows).

Definition reconcile (this_month : string) (t : Tally) (state : ScrapeState)
    : ScrapeState :=
  let months_with_catalog : gset string := list_to_set (yyyymm <$> catalog_rows t) in
  let months_with_missing : gset string := list_to_set (fst <$> missing t) in
  update_done_months this_month months_with_catalog months_with_missing
    (unmark_missing (missing t) (mark_present (present t) state)).

(** [main].  [this_month] is [now.strftime("%Y%m")]; [start] and [end_]
    are the window (the defaults, the previous and the current month, are
    filled in by the caller); [catalog], [fs] and [state_file] are the
    catalog file, the wallpaper directory and the state file as found.
    The result is the state written to [STATE_FILE] and the exit code;
    [None] when [generate_months] raises, in which case nothing is
    written. *)
Definition main (this_month start end_ : string)
    (catalog : option (list CatalogRow)) (fs : gmap string content)
    (state_file : option ScrapeState) : option (ScrapeState * Z) :=
  match Months.generate_months start end_ with
  | None => None
  | Some months =>
      let t := tally months catalog fs in
      let state := reconcile this_month t (load_state state_file) in
      Some (state, if bool_decide (missing t ≠ []) then 1%Z else 0%Z)
  end.

End Reconcile.

(** * The scraper ([scrape_bing.py]) *)

Module Scraper.
Import State.

Definition CDN_BASE : string := "https://img.nanxiongnandi.com".

(** The remote side, as the three things the scraper asks of it.  Each is
    the outcome of [get_with_retry] (all retries included): [None] for a
    404 or when the retries are used up.  The two HTML pages are given by
    what the scraper extracts from them. *)
Record Remote := mkRemote {
  archive_hrefs : string → option (list string);
    (* month -> hrefs of the anchors matching ^/detail/us/ *)
  detail_link : string → option string;
    (* image id -> result of get_4k_url_from_detail *)
  get : string → option content
    (* url -> body of the response *)
}.

Record Args := mkArgs {
  start : string;
  end_ : string;
  direct_only : bool;
  cdn_first : bool;
  reset : bool;
  reverse : bool
}.

(** What the run does that can be seen from outside: the requests, and the
    [FAILED] line printed for an item.  Each event carries the month and
    the item it belongs to. *)
Inductive Event :=
| ReqIndex (yyyymm : string)
| ReqCdn (yyyymm img_id : string)
| ReqDetail (yyyymm img_id : string)
| ReqDownload (yyyymm img_id url : string)
| PrintFailed (yyyymm img_id : string).

Definition event_month (e : Event) : string :=
  match e with
  | ReqIndex m | ReqCdn m _ | ReqDetail m _ | ReqDownload m _ _
  | PrintFailed m _ => m
  end.

Definition is_failed (e : Event) : bool :=
  match e with PrintFailed _ _ => true | _ => false end.

(** The variables of [main] that change while it runs, the output
    directory, the state file and the events so far. *)
Record Run := mkRun {
  st : ScrapeState;
  fs : gmap string content;
  n_dl : nat;
  n_skip : nat;
  n_fail : nat;
  saved : option ScrapeState;
  log : list Event
}.

Definition starts_with_jpeg (c : content) : bool :=
  match c with
  | b1 :: b2 :: _ => Byte.eqb b1 Byte.xff && Byte.eqb b2 Byte.xd8
  | _ => false
  end.

(** [try_direct_cdn]: the result and the output directory afterwards. *)
Definition try_direct_cdn (net : Remote) (yyyymm image_id dest : string)
    (fs : gmap string content) : bool * gmap string content :=
  match get net (CDN_BASE +:+ "/" +:+ yyyymm +:+ "/" +:+ image_id +:+ ".jpg") with
  | None => (false, fs)
  | Some c =>
      if (size c <? 50000)%Z || negb (starts_with_jpeg c) then (false, fs)
      else (true, <[dest := c]> fs)
  end.

(** [download_url]. *)
Definition download_url (net : Remote) (url dest : string)
    (fs : gmap string content) : bool * gmap string content :=
  match get net url with
  | None => (false, fs)
  | Some c =>
      if (size c <? 50000)%Z then (false, fs) else (true, <[dest := c]> fs)
  end.

(** [if dl_url:] is false for [None] and for the empty string. *)
Definition truthy (dl_url : option string) : option string :=
  match dl_url with
  | Some EmptyString => None
  | other => other
  end.

(** Lines 263-282: the two source orders.  The result is [ok], the
    output directory and the requests made, in order. *)
Definition fetch_item (args : Args) (net : Remote) (yyyymm img_id dest : string)
    (fs : gmap string content) : bool * gmap string content * list Event :=
  if cdn_first args || direct_only args then
    let '(ok, fs1) := try_direct_cdn net yyyymm img_id dest fs in
    if negb ok && negb (direct_only args) then
      match truthy (detail_link net img_id) with
      | Some dl_url =>
          let '(ok2, fs2) := download_url net dl_url dest fs1 in
          (ok2, fs2, [ReqCdn yyyymm img_id; ReqDetail yyyymm img_id;
                      ReqDownload yyyymm img_id dl_url])
      | None => (ok, fs1, [ReqCdn yyyymm img_id; ReqDetail yyyymm img_id])
      end
    else (ok, fs1, [ReqCdn yyyymm img_id])
  else
    match truthy (detail_link net img_id) with
    | Some dl_url =>
        let '(ok, fs1) := download_url net dl_url dest fs in
        (ok, fs1, [ReqDetail yyyymm img_id; ReqDownload yyyymm img_id dl_url])
    | None =>
        let '(ok, fs1) := try_direct_cdn net yyyymm img_id dest fs in
        (ok, fs1, [ReqDetail yyyymm img_id; ReqCdn yyyymm img_id])
    end.

Definition on_disk (fs : gmap string content) (dest : string) : bool :=
  match fs !! dest with
  | Some c => bool_decide (50000 < size c)%Z
  | None => false
  end.

Definition add_done_image (key : string) (s : ScrapeState) : ScrapeState :=
  mkState (done_months s) ({[key]} ∪ done_images s) (failed_images s).

Definition add_failed_image (key : string) (s : ScrapeState) : ScrapeState :=
  mkState (done_months s) (done_images s) ({[key]} ∪ failed_images s).

Definition add_done_month (yyyymm : string) (s : ScrapeState) : ScrapeState :=
  mkState ({[yyyymm]} ∪ done_months s) (done_images s) (failed_images s).

(** The body of [for ii, img_id in enumerate(image_ids, 1)]. *)
Definition process_item (args : Args) (net : Remote) (yyyymm : string)
    (r : Run) (img_id : string) : Run :=
  let key := item_key yyyymm img_id in
  let dest := yyyymm +:+ "_" +:+ img_id +:+ ".jpg" in
  if on_disk (fs r) dest then
    mkRun (add_done_image key (st r)) (fs r) (n_dl r) (S (n_skip r)) (n_fail r)
          (saved r) (log r)
  else if bool_decide (key ∈ done_images (st r)) then
    mkRun (st r) (fs r) (n_dl r) (S (n_skip r)) (n_fail r) (saved r) (log r)
  else
    let '(ok, fs1, reqs) := fetch_item args net yyyymm img_id dest (fs r) in
    if ok then
      mkRun (add_done_image key (st r)) fs1 (S (n_dl r)) (n_skip r) (n_fail r)
            (saved r) (log r ++ reqs)
    else
      mkRun (add_failed_image key (st r)) (delete dest fs1) (n_dl r) (n_skip r)
            (S (n_fail r)) (saved r) (log r ++ reqs ++ [PrintFailed yyyymm img_id]).

(** [save_state] of the three sets. *)
Definition checkpoint (r : Run) : Run :=
  mkRun (st r) (fs r) (n_dl r) (n_skip r) (n_fail r) (Some (st r)) (log r).

Definition with_state (s : ScrapeState) (r : Run) : Run :=
  mkRun s (fs r) (n_dl r) (n_skip r) (n_fail r) (saved r) (log r).

Definition with_event (e : Event) (r : Run) : Run :=
  mkRun (st r) (fs r) (n_dl r) (n_skip r) (n_fail r) (saved r) (log r ++ [e]).

(** The body of [for mi, yyyymm in enumerate(months, 1)]. *)
Definition process_month (args : Args) (net : Remote) (r : Run)
    (yyyymm : string) : Run :=
  if bool_decide (yyyymm ∈ done_months (st r)) then r
  else
    let image_ids := Archive.get_image_ids (archive_hrefs net yyyymm) in
    let r1 := with_event (ReqIndex yyyymm) r in
    if bool_decide (image_ids = []) then
      checkpoint (with_state (add_done_month yyyymm (st r1)) r1)
    else
      let r2 := fold_left (process_item args net yyyymm) image_ids r1 in
      checkpoint (with_state (add_done_month yyyymm (st r2)) r2).

(** [main]: [out] is the output directory and [state_file] the state file
    as found.  The result is the final [Run] and the exit code; [None]
    when [generate_months] raises. *)
Definition main (args : Args) (net : Remote) (out : gmap string content)
    (state_file : option ScrapeState) : option (Run * Z) :=
  let state := if reset args then empty_state else load_state state_file in
  match Months.generate_months (start args) (end_ args) with
  | None => None
  | Some months =>
      let months := if reverse args then rev months else months in
      let r0 := mkRun state out 0 0 0 state_file [] in
      let r := fold_left (process_month args net) months r0 in
      Some (r, if bool_decide (n_fail r = 0) then 0%Z else 1%Z)
  end.

End Scraper.


(** * Vocabulary of the statements *)

Module Props.
Import Catalog State.

(** The keys of a list of [(yyyymm, image_id)] pairs. *)
Definition keys_of (l : list (string * string)) : gset string :=
  list_to_set ((λ p, item_key p.1 p.2) <$> l).

Definition row_item_key (row : CatalogRow) : string :=
  item_key (yyyymm row) (image_id row).

Definition row_item_key_of_pair (p : string * string) : string :=
  item_key p.1 p.2.

(** The entries of the catalog file that fall in the window. *)
Definition in_window (catalog : option (list CatalogRow)) (months : list string)
    (row : CatalogRow) : Prop :=
  ∃ rows, catalog = Some rows ∧ row ∈ rows ∧ yyyymm row ∈ months.

(** The claim on the image sets as the specification words it: a present
    entry is done and not failed, a missing entry is in neither set. *)
Definition separates_done_and_failed (this_month start end_ : string)
    (catalog : option (list CatalogRow)) (fs : gmap string content)
    (state_file : option ScrapeState) : Prop :=
  ∀ state' code months row,
    Reconcile.main this_month start end_ catalog fs state_file = Some (state', code) →
    Months.generate_months start end_ = Some months →
    in_window catalog months row →
    if Reconcile.image_is_present fs (filename row)
    then (row_item_key row ∈ done_images state')
         ∧ (row_item_key row ∉ failed_images state')
    else (row_item_key row ∉ done_images state')
         ∧ (row_item_key row ∉ failed_images state').

(** A file of [n] zero bytes. *)
Definition zeros (n : Z) : content := replicate (Z.to_nat n) Byte.x00.

Definition dunes : CatalogRow :=
  mkRow "2025-01-01" "202501" "Dunes" "202501_Dunes.jpg".
Definition heron : CatalogRow :=
  mkRow "2025-01-02" "202501" "Heron" "202501_Heron.jpg".

End Props.

(** Vocabulary for the catalog. *)

Module CatalogProps.
Import Decimal Catalog.

(** The row written for the item at [position]. *)
Definition row_at (year month n : Z) (key : string) (position : Z)
    (image_id : string) : CatalogRow :=
  {| date := isoformat (year, month, n - position + 1)%Z;
     yyyymm := key;
     image_id := image_id;
     filename := key +:+ "_" +:+ image_id +:+ ".jpg" |}.

(** The claim as the specification words it, for one month and one
    listing: a record per position, position [p] carrying day
    [n - p + 1]. *)
Definition assigns_every_position (key : string) (ids : list string) : Prop :=
  ∃ rows, assign_dates key ids = Some rows
          ∧ length rows = length ids
          ∧ row_day <$> rows = Some <$> reverse (seqZ 1 (Z.of_nat (length ids))).

(** The mapping made of the given rows, in order. *)
Definition entries (rows : list CatalogRow) : dict :=
  (λ r, (row_key r, r)) <$> rows.

Definition sample_catalog : dict :=
  load_existing (Some [
    mkRow "2024-12-01" "202412" "Frost" "202412_Frost.jpg";
    mkRow "2025-01-01" "202501" "Dunes" "202501_Dunes.jpg";
    mkRow "2025-01-02" "202501" "Stale" "202501_Stale.jpg"]).

Definition sample_page : option (list string) :=
  Some ["/detail/us/Heron"; "/detail/us/Dunes"; "/detail/us/Heron"].

(** Ascending order of the date text. *)
Definition date_le (a b : CatalogRow) : Prop := String.le (date a) (date b).

(** The claim as the specification words it: stopped at any point, the
    write leaves either the previous file or the complete new one. *)
Definition write_is_atomic (old : option csv_file) (rows : list CatalogRow) : Prop :=
  ∀ p, file_at old rows p = old ∨ file_at old rows p = Some (write_csv rows).

End CatalogProps.

(** Vocabulary for the scraper. *)

Module RunProps.
Import State Scraper.

Definition count_failed (evs : list Event) : nat :=
  length (filter (λ e, is_failed e = true) evs).

(** [r'] is reached from [r] by running more of the loop: the log grows
    by events of months outside [D], [n_fail] grows by the number of
    [FAILED] lines among them, each of which has its key in
    [failed_images], and nothing leaves [done_months] or
    [failed_images]. *)
Definition extends (D : gset string) (r r' : Run) : Prop :=
  ∃ evs,
    log r' = log r ++ evs
    ∧ Forall (λ e, event_month e ∉ D) evs
    ∧ n_fail r' = n_fail r + count_failed evs
    ∧ done_months (st r) ⊆ done_months (st r')
    ∧ failed_images (st r) ⊆ failed_images (st r')
    ∧ (∀ m id, PrintFailed m id ∈ evs → item_key m id ∈ failed_images (st r')).

Definition dest_of (yyyymm img_id : string) : string :=
  yyyymm +:+ "_" +:+ img_id +:+ ".jpg".


(** The item is not skipped: no file on disk, key not in [done_images]. *)
Definition attempted (r : Run) (yyyymm img_id : string) : Prop :=
  on_disk (fs r) (dest_of yyyymm img_id) = false
  ∧ item_key yyyymm img_id ∉ done_images (st r).




Definition fresh_run : Run := mkRun empty_state ∅ 0 0 0 None [].

Definition detail_first : Args := mkArgs "202501" "202501" false false false false.

(** A remote whose every image response is ten bytes long. *)
Definition tiny_remote : Remote :=
  mkRemote (λ _, Some ["/detail/us/Dunes"])
           (λ _, Some "https://imgproxy.example/w:3840/Dunes.jpg")
           (λ _, Some (Props.zeros 10)).

End RunProps.

(** * Requests with retries ([get_with_retry]) *)

Module Http.
Import State.









End Http.

(** * The detail page ([get_4k_url_from_detail]) *)

Module Detail.

Fixpoint is_prefix (p s : string) : bool :=
  match p, s with
  | EmptyString, _ => true
  | String a p', String b s' => Ascii.eqb a b && is_prefix p' s'
  | String _ _, EmptyString => false
  end.

(** [re.compile(re.escape(width))] found somewhere in the [href]. *)
Fixpoint contains (sub s : string) : bool :=
  is_prefix sub s
  || match s with
     | EmptyString => false
     | String _ s' => contains sub s'
     end.

Definition WIDTHS : list string := ["w:3840"; "w:2560"; "w:1920"].

(** The two nested loops: the first anchor of the first width that has
    one. *)
Fixpoint first_link (widths hrefs : list string) : option string :=
  match widths with
  | [] => None
  | width :: rest =>
      match List.find (contains width) hrefs with
      | Some href => Some href
      | None => first_link rest hrefs
      end
  end.

(** [page] is what [get_with_retry] returned for the detail page: [None]
    for no response, otherwise the [href]s of its anchors in page order. *)
Definition get_4k_url_from_detail (page : option (list string)) : option string :=
  match page with
  | None => None
  | Some hrefs => first_link WIDTHS hrefs
  end.

End Detail.

(** * The default window of [prepare_sync.py] and [build_date_catalog.py] *)

Module Window.
Import Months.

(** Lines 72-79 of [prepare_sync.main]: [now] is given by its year and
    month.  The result is [(prev_month, this_month)], the defaults of
    [--start] and [--end]; [None] when [replace] raises. *)
Definition default_window (now : datetime) : option (string * string) :=
  let this_month := strftime now in
  match mk_datetime (fst now) (snd now) with
  | None => None
  | Some prev_dt =>
      match (if (snd prev_dt =? 1)%Z
             then mk_datetime (fst prev_dt - 1) 12
             else mk_datetime (fst prev_dt) (snd prev_dt - 1)) with
      | None => None
      | Some prev_dt' => Some (strftime prev_dt', this_month)
      end
  end.

End Window.

(** * Today's image ([lookup_today] of [set_today.py]) *)

Module Today.
Import Catalog.

(** [today] is [date.today().isoformat()]; [file] is the parsed catalog,
    [None] when it does not exist. *)
Definition lookup_today (today : string) (file : option (list CatalogRow))
    : option string :=
  match file with
  | None => None
  | Some rows =>
      match List.find (λ row, String.eqb (date row) today) rows with
      | Some row => Some (filename row)
      | None => None
      end
  end.

End Today.

(** * Sorting by resolution ([sort_by_resolution.py]) *)

Module Sorter.
Import State.

Definition TIERS : list (string * Z) :=
  [("high", 3840%Z); ("medium", 1920%Z); ("low", 0%Z)].

Fixpoint classify_in (tiers : list (string * Z)) (width : Z) : string :=
  match tiers with
  | [] => "low"
  | (name, threshold) :: rest =>
      if (threshold <=? width)%Z then name else classify_in rest width
  end.

Definition classify (width : Z) : string := classify_in TIERS width.

(** The directory while the loop runs, and the two counts that decide the
    exit code. *)
Record Sorting := mkSorting {
  dir : gmap string content;
  moved : list (string * string);   (* file name, tier *)
  errors : nat
}.

(** The body of [for filepath in files].  [width_of name] is the width
    [Image.open] reads, [None] when it raises (the error is counted).
    [rename] puts the file at [tier/name], replacing what is there; the
    result is [None] when [rename] raises because the file is gone. *)
Definition sort_file (dry_run : bool) (width_of : string → option Z)
    (s : Sorting) (name : string) : option Sorting :=
  match width_of name with
  | None => Some (mkSorting (dir s) (moved s) (S (errors s)))
  | Some width =>
      let tier := classify width in
      let dest := tier +:+ "/" +:+ name in
      if dry_run then Some (mkSorting (dir s) (moved s ++ [(name, tier)]) (errors s))
      else
        match dir s !! name with
        | Some c =>
            Some (mkSorting (<[dest := c]> (delete name (dir s)))
                            (moved s ++ [(name, tier)]) (errors s))
        | None => None
        end
  end.

Fixpoint sort_files (dry_run : bool) (width_of : string → option Z)
    (s : Sorting) (files : list string) : option Sorting :=
  match files with
  | [] => Some s
  | name :: rest =>
      match sort_file dry_run width_of s name with
      | None => None
      | Some s' => sort_files dry_run width_of s' rest
      end
  end.

(** [main] once the directory is known to exist: [files] is the sorted
    list of the [.jpg] files found directly in it.  The result is the
    directory afterwards, what was (or would be) moved, and the exit code. *)
Definition main (dry_run : bool) (width_of : string → option Z)
    (files : list string) (d : gmap string content) : option (Sorting * Z) :=
  match files with
  | [] => Some (mkSorting d [] 0, 0%Z)
  | _ =>
      match sort_files dry_run width_of (mkSorting d [] 0) files with
      | None => None
      | Some s => Some (s, if bool_decide (errors s = 0) then 0%Z else 1%Z)
      end
  end.

Fixpoint has_slash (s : string) : bool :=
  match s with
  | EmptyString => false
  | String c s' => Ascii.eqb c "/"%char || has_slash s'
  end.

End Sorter.

(** More vocabulary for the scraper. *)

Module RunMore.
Import State Scraper.

(** Nothing is lost between [r] and [r']: the three sets only gain keys,
    and a file of more than 50000 bytes is still there, unchanged. *)
Definition grows (r r' : Run) : Prop :=
  done_months (st r) ⊆ done_months (st r')
  ∧ done_images (st r) ⊆ done_images (st r')
  ∧ failed_images (st r) ⊆ failed_images (st r')
  ∧ (∀ path c, fs r !! path = Some c → (50000 < size c)%Z →
               fs r' !! path = Some c).

(** The events that concern a detail page or a link taken from one. *)
Definition uses_detail (e : Event) : bool :=
  match e with
  | ReqDetail _ _ | ReqDownload _ _ _ => true
  | _ => false
  end.

(** The run as [main] starts it. *)
Definition start_run (args : Args) (out : gmap string content)
    (state_file : option ScrapeState) : Run :=
  mkRun (if reset args then empty_state else load_state state_file)
        out 0 0 0 state_file [].

End RunMore.

(** * Properties of the month range *)

Section MonthRange.
Import Decimal Months.

Lemma mk_datetime_Some y m d :
  mk_datetime y m = Some d ↔ (d = (y, m) ∧ 1 ≤ y ≤ 9999 ∧ 1 ≤ m ≤ 12)%Z.
Proof.
  unfold mk_datetime.
  destruct (_ && _) eqn:E.
  - apply andb_true_iff in E as [E E4]. apply andb_true_iff in E as [E E3].
    apply andb_true_iff in E as [E1 E2].
    split; [intros [= <-]; split; [done|lia]|intros [-> _]; done].
  - split; [done|]. intros (-> & ? & ?).
    assert ((1 <=? y)%Z && (y <=? 9999)%Z && (1 <=? m)%Z && (m <=? 12)%Z = true)
      by (repeat (apply andb_true_iff; split); lia).
    congruence.
Qed.

Lemma parse_range s d :
  parse s = Some d → (1 ≤ fst d ≤ 9999 ∧ 1 ≤ snd d ≤ 12)%Z.
Proof.
  unfold parse. repeat case_match; try done.
  intros (-> & ? & ?)%mk_datetime_Some. done.
Qed.

Lemma dt_leb_index a b :
  (1 ≤ snd a ≤ 12)%Z → (1 ≤ snd b ≤ 12)%Z →
  dt_leb a b = true ↔ (month_index a ≤ month_index b)%Z.
Proof.
  intros ??. unfold dt_leb, month_index.
  rewrite orb_true_iff, andb_true_iff. lia.
Qed.

Lemma next_month_index cur :
  (1 ≤ fst cur ≤ 9999)%Z → (1 ≤ snd cur ≤ 12)%Z → cur ≠ (9999, 12)%Z →
  ∃ cur', next_month cur = Some cur'
          ∧ month_index cur' = (month_index cur + 1)%Z
          ∧ (1 ≤ fst cur' ≤ 9999)%Z ∧ (1 ≤ snd cur' ≤ 12)%Z.
Proof.
  destruct cur as [y m]; simpl. intros ?? Hne. unfold next_month; simpl.
  destruct (Z.eqb_spec m 12) as [->|?].
  - assert (y ≠ 9999%Z) by (intros ->; done).
    exists (y + 1, 1)%Z. split.
    + apply mk_datetime_Some. split; [done|lia].
    + unfold month_index; simpl. lia.
  - exists (y, m + 1)%Z. split.
    + apply mk_datetime_Some. split; [done|lia].
    + unfold month_index; simpl. lia.
Qed.

Lemma key_of_month_index d :
  (1 ≤ snd d ≤ 12)%Z → key_of_index (month_index d) = strftime d.
Proof.
  destruct d as [y m]; simpl. intros ?. unfold key_of_index, month_index; simpl.
  replace ((12 * y + (m - 1)) / 12)%Z with y
    by (apply Z.div_unique with (m - 1)%Z; lia).
  replace ((12 * y + (m - 1)) mod 12 + 1)%Z with m; [done|].
  assert ((12 * y + (m - 1)) mod 12 = m - 1)%Z; [|lia].
  symmetry; apply Z.mod_unique with y; lia.
Qed.

(** The loop lists every month from [cur] to [stop]; the fuel passed by
    [generate_months] (or any larger one) is enough. *)
Lemma months_loop_fuel fuel cur stop :
  (1 ≤ fst cur ≤ 9999)%Z → (1 ≤ snd cur ≤ 12)%Z →
  (1 ≤ fst stop ≤ 9999)%Z → (1 ≤ snd stop ≤ 12)%Z →
  stop ≠ (9999, 12)%Z →
  (month_index stop - month_index cur + 1 ≤ Z.of_nat fuel)%Z →
  months_loop fuel cur stop
  = Some (key_of_index <$> seqZ (month_index cur) (month_index stop - month_index cur + 1)).
Proof.
  revert cur. induction fuel as [|fuel IH]; intros cur Hy Hm Hys Hms Hlast Hfuel.
  - simpl. destruct (dt_leb cur stop) eqn:E.
    + apply dt_leb_index in E; [lia|done..].
    + rewrite seqZ_nil; [done|].
      assert (¬ (month_index cur ≤ month_index stop)%Z); [|lia].
      rewrite <- dt_leb_index by done. congruence.
  - simpl. destruct (dt_leb cur stop) eqn:E.
    + apply dt_leb_index in E; [|done..].
      assert (cur ≠ (9999, 12)%Z) as Hcur.
      { intros ->. destruct stop as [ys ms]. unfold month_index in E; simpl in *.
        assert (ys = 9999 ∧ ms = 12)%Z as [-> ->] by (clear -Hys Hms E; lia). done. }
      destruct (next_month_index cur Hy Hm Hcur) as (cur' & -> & Hidx & Hy' & Hm').
      rewrite IH by (try done; lia).
      rewrite (seqZ_cons (month_index cur)) by lia. simpl.
      rewrite key_of_month_index by done.
      rewrite Hidx. do 4 f_equal; lia.
    + rewrite seqZ_nil; [done|].
      assert (¬ (month_index cur ≤ month_index stop)%Z); [|lia].
      rewrite <- dt_leb_index by done. congruence.
Qed.

Lemma months_loop_empty fuel cur stop :
  (1 ≤ snd cur ≤ 12)%Z → (1 ≤ snd stop ≤ 12)%Z →
  (month_index stop < month_index cur)%Z →
  months_loop fuel cur stop = Some [].
Proof.
  intros ?? Hlt.
  assert (dt_leb cur stop = false) as E.
  { destruct (dt_leb cur stop) eqn:E; [|done].
    apply dt_leb_index in E; [lia|done..]. }
  destruct fuel; simpl; by rewrite E.
Qed.

(** C9. [generate_months] returns the months from [start] to [end_] in
    order, one calendar month apart and without a gap, December being
    followed by January of the next year; when [start] is later than
    [end_] it returns the empty list and does not raise.  The two keys are
    month keys ([parse] accepts them), and in the first part the month
    after [end_] is still a date (December 9999 has no successor). *)
Theorem generate_months_range start end_ cur stop :
  parse start = Some cur → parse end_ = Some stop →
  ((month_index stop < month_index cur)%Z → generate_months start end_ = Some [])
  ∧ ((month_index cur ≤ month_index stop)%Z → stop ≠ (9999, 12)%Z →
     generate_months start end_
     = Some (key_of_index <$> seqZ (month_index cur)
                                    (month_index stop - month_index cur + 1))).
Proof.
  intros Hs He. unfold generate_months. rewrite Hs, He.
  destruct (parse_range _ _ Hs), (parse_range _ _ He).
  split.
  - intros. by apply months_loop_empty.
  - intros. apply months_loop_fuel; try done. lia.
Qed.

Lemma generate_months_range_witness :
  generate_months "202502" "202411" = Some []
  ∧ generate_months "202411" "202502"
    = Some ["202411"; "202412"; "202501"; "202502"].
Proof.
  assert (parse "202502" = Some (2025, 2)%Z) as H1 by reflexivity.
  assert (parse "202411" = Some (2024, 11)%Z) as H2 by reflexivity.
  split.
  - apply (proj1 (generate_months_range "202502" "202411" _ _ H1 H2)).
    vm_compute. reflexivity.
  - rewrite (proj2 (generate_months_range "202411" "202502" _ _ H2 H1)).
    + reflexivity.
    + vm_compute. discriminate.
    + discriminate.
Defined.

End MonthRange.

(** * Decimal text round trips *)

Section DecimalFacts.
Import Decimal Months.

Lemma digit_of_ascii_of_digit k :
  digit_of_ascii (ascii_of_digit k) = Some (k mod 10)%Z.
Proof.
  unfold digit_of_ascii, ascii_of_digit.
  assert (0 ≤ k mod 10 < 10)%Z as Hr by (apply Z.mod_pos_bound; lia).
  rewrite N_ascii_embedding by lia.
  rewrite Z2N.id by lia.
  replace ((48 <=? 48 + k mod 10)%Z && (48 + k mod 10 <=? 57)%Z) with true.
  - f_equal. lia.
  - symmetry. apply andb_true_iff. lia.
Qed.

Lemma ascii_of_digit_plain k :
  is_space (ascii_of_digit k) = false
  ∧ Ascii.eqb (ascii_of_digit k) "+" = false
  ∧ Ascii.eqb (ascii_of_digit k) "-" = false.
Proof.
  unfold ascii_of_digit.
  assert (0 ≤ k mod 10 < 10)%Z as Hr by (apply Z.mod_pos_bound; lia).
  assert (k mod 10 = 0 ∨ k mod 10 = 1 ∨ k mod 10 = 2 ∨ k mod 10 = 3
          ∨ k mod 10 = 4 ∨ k mod 10 = 5 ∨ k mod 10 = 6 ∨ k mod 10 = 7
          ∨ k mod 10 = 8 ∨ k mod 10 = 9)%Z as Hk by lia.
  destruct_or!; rewrite Hk; by vm_compute.
Qed.

(** A text that starts with a digit has neither leading blanks nor a sign. *)
Lemma int_of_string_digits k s :
  int_of_string (String (ascii_of_digit k) s)
  = int_digits 0 false (String (ascii_of_digit k) s).
Proof.
  destruct (ascii_of_digit_plain k) as (Hsp & Hplus & Hminus).
  unfold int_of_string. cbn [lstrip]. by rewrite Hsp, Hplus, Hminus.
Qed.

Lemma int_of_pad2 n : (0 ≤ n < 100)%Z → int_of_string (pad2 n) = Some n.
Proof.
  intros ?. unfold pad2. rewrite int_of_string_digits. cbn [int_digits].
  rewrite !digit_of_ascii_of_digit. f_equal. Z.div_mod_to_equations. lia.
Qed.

Lemma int_of_pad4 n : (0 ≤ n < 10000)%Z → int_of_string (pad4 n) = Some n.
Proof.
  intros ?. unfold pad4. rewrite int_of_string_digits. cbn [int_digits].
  rewrite !digit_of_ascii_of_digit. f_equal. Z.div_mod_to_equations. lia.
Qed.

(** A key printed by [strftime] is read back by [parse]. *)
Lemma parse_strftime y m :
  (1 ≤ y ≤ 9999)%Z → (1 ≤ m ≤ 12)%Z → parse (strftime (y, m)) = Some (y, m).
Proof.
  intros ??. unfold parse.
  change (String.substring 0 4 (strftime (y, m))) with (pad4 y).
  change (String.substring 4 2 (strftime (y, m))) with (pad2 m).
  rewrite int_of_pad4, int_of_pad2 by lia.
  apply mk_datetime_Some. split; [done|lia].
Qed.

Lemma parse_Some s y m :
  parse s = Some (y, m) →
  int_of_string (String.substring 0 4 s) = Some y
  ∧ int_of_string (String.substring 4 2 s) = Some m
  ∧ (1 ≤ y ≤ 9999)%Z ∧ (1 ≤ m ≤ 12)%Z.
Proof.
  unfold parse. repeat case_match; try done.
  intros ([= -> ->] & ? & ?)%mk_datetime_Some. done.
Qed.

End DecimalFacts.

(** * Date assignment *)

Section DateAssigner.
Import Decimal Months Catalog CatalogProps.

Lemma mk_date_Some y m d :
  (1 ≤ y ≤ 9999)%Z → (1 ≤ m ≤ 12)%Z → (1 ≤ d ≤ days_in_month y m)%Z →
  mk_date y m d = Some (y, m, d).
Proof.
  intros ???. unfold mk_date.
  replace (_ && _) with true; [done|].
  symmetry. repeat (apply andb_true_iff; split); lia.
Qed.

Lemma days_in_month_le y m : (days_in_month y m ≤ 31)%Z.
Proof. unfold days_in_month. repeat case_match; lia. Qed.

Lemma assign_rows_Some year month n key position ids :
  (1 ≤ year ≤ 9999)%Z → (1 ≤ month ≤ 12)%Z →
  (1 ≤ position)%Z → (n - position + 1 ≤ days_in_month year month)%Z →
  (position + Z.of_nat (length ids) = n + 1)%Z →
  assign_rows year month n key position ids
  = Some (zip_with (row_at year month n key)
                   (seqZ position (Z.of_nat (length ids))) ids).
Proof.
  intros Hy Hm. revert position.
  induction ids as [|id ids IH]; intros position Hp Hd Hn; simpl in *.
  - done.
  - rewrite mk_date_Some by lia.
    rewrite IH by lia.
    rewrite (seqZ_cons position) by lia.
    replace (Z.pred (Z.of_nat (S (length ids))))
      with (Z.of_nat (length ids)) by lia.
    replace (Z.succ position) with (position + 1)%Z by lia.
    done.
Qed.

Lemma row_day_row_at year month n key position id :
  (0 ≤ n - position + 1 < 100)%Z →
  row_day (row_at year month n key position id) = Some (n - position + 1)%Z.
Proof.
  intros ?. unfold row_day.
  change (String.substring 8 2 (date (row_at year month n key position id)))
    with (pad2 (n - position + 1)).
  by apply int_of_pad2.
Qed.

Lemma countdown_reverse n :
  (0 ≤ n)%Z → (λ p, n - p + 1)%Z <$> seqZ 1 n = reverse (seqZ 1 n).
Proof.
  intros ?. apply list_eq. intros i.
  rewrite list_lookup_fmap.
  destruct (decide (Z.of_nat i < n)%Z) as [Hi|Hi].
  - rewrite lookup_seqZ_lt by done. simpl.
    rewrite reverse_lookup by (rewrite length_seqZ; lia).
    rewrite length_seqZ.
    rewrite lookup_seqZ_lt by lia. f_equal. lia.
  - rewrite lookup_seqZ_ge by lia. simpl. symmetry.
    apply lookup_ge_None. rewrite length_reverse, length_seqZ. lia.
Qed.

(** A listing longer than the month: the first position asks for day [n],
    which the month does not have. *)
Lemma assign_dates_too_long key year month ids :
  parse key = Some (year, month) →
  (days_in_month year month < Z.of_nat (length ids))%Z →
  assign_dates key ids = None.
Proof.
  intros (Hy & Hm & ? & ?)%parse_Some Hn.
  unfold assign_dates. rewrite Hy, Hm.
  destruct ids as [|id ids]; [unfold days_in_month in Hn; simpl in Hn;
                              repeat case_match; lia|].
  cbn [assign_rows]. unfold mk_date.
  replace (_ && _) with false; [done|].
  symmetry. apply andb_false_iff. right. apply Z.leb_gt. lia.
Qed.

(** February 2025 has 28 days: a listing with 29 items makes
    [date(2025, 2, 29)] raise at the first position, and no record is
    produced. *)
Lemma assign_dates_too_many_ids :
  ¬ assigns_every_position "202502" (pad2 <$> seqZ 1 29).
Proof.
  intros (rows & Hrows & _).
  vm_compute in Hrows. discriminate.
Qed.

(** C6 (amended). For a month key and a listing of [n] identifiers with
    [n] not above the number of days of that month, [assign_dates] returns
    one record per position; the record at position [p] (counted from 1,
    most recent first) has the identifier found there and the date of day
    [n - p + 1].  The days are [n, n-1, .., 1]: position 1 gets day [n],
    position [n] gets day 1, and position to day is a bijection onto
    [1..n].  For a listing longer than the month, [date] raises and
    [assign_dates] returns no record. *)
Theorem assign_dates_days key year month ids :
  parse key = Some (year, month) →
  let n := Z.of_nat (length ids) in
  ((n ≤ days_in_month year month)%Z →
   ∃ rows,
     assign_dates key ids = Some rows
     ∧ length rows = length ids
     ∧ (∀ (i : nat) id, ids !! i = Some id →
          let p := Z.of_nat (S i) in
          ∃ r, rows !! i = Some r
               ∧ image_id r = id ∧ yyyymm r = key
               ∧ date r = isoformat (year, month, n - p + 1)%Z
               ∧ row_day r = Some (n - p + 1)%Z)
     ∧ row_day <$> rows = Some <$> reverse (seqZ 1 n)
     ∧ (Some <$> seqZ 1 n) ≡ₚ (row_day <$> rows))
  ∧ ((days_in_month year month < n)%Z → assign_dates key ids = None).
Proof.
  intros Hparse n.
  split; [|by apply (assign_dates_too_long key year month)].
  destruct (parse_Some _ _ _ Hparse) as (Hy & Hm & ? & ?).
  pose proof (days_in_month_le year month).
  intros Hn.
  unfold assign_dates. rewrite Hy, Hm.
  rewrite assign_rows_Some by lia. fold n.
  eexists. split; [done|].
  assert (length (seqZ 1 n) = length ids) as Hlen
    by (rewrite length_seqZ; unfold n; lia).
  assert (row_day <$> zip_with (row_at year month n key) (seqZ 1 n) ids
          = Some <$> reverse (seqZ 1 n)) as Hdays.
  { rewrite <- countdown_reverse by lia.
    apply list_eq. intros i. rewrite !list_lookup_fmap, lookup_zip_with.
    destruct (ids !! i) as [id|] eqn:Hid.
    - assert (i < length ids)%nat by (by eapply lookup_lt_Some).
      rewrite lookup_seqZ_lt by lia. simpl.
      rewrite row_day_row_at by lia. done.
    - assert (length ids ≤ i)%nat by (by apply lookup_ge_None).
      rewrite lookup_seqZ_ge by lia. done. }
  split; [|split; [|split]].
  - rewrite length_zip_with_r_eq; done.
  - intros i id Hid. set (p := Z.of_nat (S i)).
    assert (i < length ids)%nat by (by eapply lookup_lt_Some).
    exists (row_at year month n key p id). split; [|split; [|split; [|split]]]; try done.
    + rewrite lookup_zip_with, lookup_seqZ_lt by lia. simpl. rewrite Hid. simpl.
      do 2 f_equal. lia.
    + apply row_day_row_at. lia.
  - exact Hdays.
  - rewrite Hdays. by rewrite reverse_Permutation.
Qed.

Lemma assign_dates_days_witness :
  ∃ rows,
    assign_dates "202501" ["A"; "B"; "C"] = Some rows
    ∧ row_day <$> rows = [Some 3; Some 2; Some 1]%Z.
Proof.
  destruct (proj1 (assign_dates_days "202501" 2025 1 ["A"; "B"; "C"] eq_refl))
    as (rows & Hrows & _ & _ & Hdays & _).
  - vm_compute. discriminate.
  - exists rows. split; [exact Hrows|exact Hdays].
Defined.

End DateAssigner.

(** * The archive index *)

Section ArchiveIndex.
Import Archive.

Lemma collect_ids_not_seen seen hrefs x :
  x ∈ collect_ids seen hrefs → (x ∉ seen) ∧ x ≠ EmptyString.
Proof.
  revert seen. induction hrefs as [|href rest IH]; intros seen; simpl.
  - by intros ?%elem_of_nil.
  - case_decide as Hd.
    + intros [->|Hin]%elem_of_cons; [tauto|].
      apply IH in Hin. set_solver.
    + apply IH.
Qed.

Lemma collect_ids_NoDup seen hrefs : NoDup (collect_ids seen hrefs).
Proof.
  revert seen. induction hrefs as [|href rest IH]; intros seen; simpl.
  - constructor.
  - case_decide; [|apply IH].
    apply NoDup_cons. split; [|apply IH].
    intros Hin%collect_ids_not_seen. set_solver.
Qed.

(** The identifiers of a month's listing are pairwise distinct. *)
Lemma get_image_ids_NoDup page : NoDup (get_image_ids page).
Proof. destruct page; simpl; [apply collect_ids_NoDup|constructor]. Qed.

End ArchiveIndex.

(** * The catalog store: merge *)

Section CatalogMerge.
Import Catalog CatalogProps.

Lemma dict_set_fresh k v (d : dict) :
  k ∉ (fst <$> d) → dict_set k v d = d ++ [(k, v)].
Proof.
  induction d as [|[k' v'] d IH]; simpl; [done|].
  intros [? ?]%not_elem_of_cons.
  case_decide; [congruence|]. by rewrite IH.
Qed.

Lemma dict_set_keys_NoDup k v (d : dict) :
  NoDup (fst <$> d) → NoDup (fst <$> dict_set k v d).
Proof.
  induction d as [|[k' v'] d IH]; simpl.
  - intros _. apply NoDup_singleton.
  - intros [Hk' Hd]%NoDup_cons. case_decide as Hkk; simpl.
    + subst. by apply NoDup_cons.
    + apply NoDup_cons. split; [|by apply IH].
      intros Hin. apply Hk'. clear -Hin Hkk.
      induction d as [|[k2 v2] d IH]; simpl in *.
      * apply list_elem_of_singleton in Hin. congruence.
      * case_decide; simpl in *; set_solver.
Qed.

Lemma load_existing_NoDup file : NoDup (fst <$> load_existing file).
Proof.
  destruct file as [rows|]; simpl; [|constructor].
  assert (∀ d : dict, NoDup (fst <$> d) →
    NoDup (fst <$> fold_left (λ existing row, dict_set (row_key row) row existing) rows d))
    as H; [|apply H; constructor].
  induction rows as [|r rows IH]; intros d Hd; simpl; [done|].
  apply IH. by apply dict_set_keys_NoDup.
Qed.

Lemma store_rows_fresh rows (d : dict) :
  NoDup (row_key <$> rows) →
  (∀ r, r ∈ rows → row_key r ∉ (fst <$> d)) →
  store_rows rows d = d ++ entries rows.
Proof.
  unfold store_rows, entries. revert d.
  induction rows as [|r rows IH]; intros d Hnd Hfresh; simpl.
  - by rewrite app_nil_r.
  - apply NoDup_cons in Hnd as [Hr Hnd].
    rewrite dict_set_fresh by (apply Hfresh; left).
    rewrite IH; [by rewrite <- app_assoc|done|].
    intros r' Hr'. rewrite fmap_app, elem_of_app. simpl.
    intros [Hin|Hin%list_elem_of_singleton].
    + by apply (Hfresh r'); [right|].
    + apply Hr. rewrite <- Hin. by apply list_elem_of_fmap_2.
Qed.

Lemma assign_rows_shape year month n key position ids rows :
  assign_rows year month n key position ids = Some rows →
  Forall (λ r, yyyymm r = key) rows ∧ image_id <$> rows = ids.
Proof.
  revert position rows.
  induction ids as [|id ids IH]; intros position rows; simpl.
  - intros [= <-]. done.
  - destruct (mk_date _ _ _); [|done].
    destruct (assign_rows _ _ _ _ _ ids) as [rows'|] eqn:E; [|done].
    intros [= <-]. apply IH in E as [? ?].
    split; [by constructor|]. simpl. by f_equal.
Qed.

Lemma assign_dates_shape key ids rows :
  assign_dates key ids = Some rows →
  Forall (λ r, yyyymm r = key) rows ∧ image_id <$> rows = ids.
Proof.
  unfold assign_dates. repeat case_match; try done.
  apply assign_rows_shape.
Qed.

Lemma dict_get_app k (d e : dict) :
  dict_get k (d ++ e)
  = match dict_get k d with Some v => Some v | None => dict_get k e end.
Proof.
  induction d as [|[k' v'] d IH]; simpl; [done|]. by case_decide.
Qed.

Lemma dict_get_None k (d : dict) : k ∉ (fst <$> d) → dict_get k d = None.
Proof.
  induction d as [|[k' v'] d IH]; simpl; [done|].
  intros [? ?]%not_elem_of_cons. case_decide; [congruence|auto].
Qed.

Lemma dict_get_purge_other month k (d : dict) :
  k.1 ≠ month → dict_get k (purge_month month d) = dict_get k d.
Proof.
  intros Hk. unfold purge_month.
  induction d as [|[k' v'] d IH]; [done|].
  rewrite filter_cons. simpl.
  destruct (decide (k'.1 ≠ month)) as [Hm|Hm]; simpl; rewrite IH; [done|].
  destruct (decide (k' = k)) as [->|?]; [by destruct Hm|done].
Qed.

Lemma purge_month_keys month (d : dict) k :
  k ∈ (fst <$> purge_month month d) → k.1 ≠ month.
Proof.
  unfold purge_month.
  intros ([k' v] & -> & [? ?]%list_elem_of_filter)%list_elem_of_fmap. done.
Qed.

Lemma filter_all {A} (P : A → Prop) `{∀ x, Decision (P x)} (l : list A) :
  Forall P l → filter P l = l.
Proof.
  induction 1 as [|x l Hx Hl IH]; [done|].
  rewrite filter_cons. case_decide; [by f_equal|done].
Qed.

Lemma filter_none {A} (P : A → Prop) `{∀ x, Decision (P x)} (l : list A) :
  Forall (λ x, ¬ P x) l → filter P l = [].
Proof.
  induction 1 as [|x l Hx Hl IH]; [done|].
  rewrite filter_cons. by case_decide.
Qed.

(** The merged mapping is the purged one followed by the new rows, in
    listing order. *)
Lemma merge_month_app month ids new_rows all_rows :
  NoDup ids →
  assign_dates month ids = Some new_rows →
  merge_month month new_rows all_rows
  = purge_month month all_rows ++ entries new_rows.
Proof.
  intros Hids [Hmonth Hrows]%assign_dates_shape.
  unfold merge_month. apply store_rows_fresh.
  - unfold row_key.
    assert (NoDup (image_id <$> new_rows)) as Hnd by (by rewrite Hrows).
    clear -Hnd. induction new_rows as [|r rows IH]; simpl in *; [constructor|].
    apply NoDup_cons in Hnd as [Hr Hnd]. apply NoDup_cons. split; [|auto].
    intros (r' & [= _ Hid] & Hin)%list_elem_of_fmap.
    apply Hr. rewrite Hid. by apply list_elem_of_fmap_2.
  - intros r Hr Hin%purge_month_keys.
    rewrite Forall_forall in Hmonth. by apply Hin, Hmonth.
Qed.

(** C5. When a month is fetched again, the merge deletes every record of
    that month and then stores the rows derived from the new listing.
    Afterwards the entries of that month are exactly the new rows, in
    listing order; no key occurs twice; the entries of the other months are
    the ones that were there, in the same order, and every lookup under
    another month is unchanged.  [all_rows] is a mapping ([load_existing]
    and the merge keep the keys distinct) and the listing is the one
    [get_image_ids] extracts. *)
Theorem merge_refetched_month page month new_rows all_rows :
  NoDup (fst <$> all_rows) →
  assign_dates month (Archive.get_image_ids page) = Some new_rows →
  let merged := merge_month month new_rows all_rows in
  filter (λ kv, kv.1.1 = month) merged = entries new_rows
  ∧ NoDup (fst <$> merged)
  ∧ filter (λ kv, kv.1.1 ≠ month) merged = filter (λ kv, kv.1.1 ≠ month) all_rows
  ∧ (∀ k, k.1 ≠ month → dict_get k merged = dict_get k all_rows).
Proof.
  intros Hnd Hassign merged.
  pose proof (get_image_ids_NoDup page) as Hids.
  pose proof (merge_month_app _ _ _ all_rows Hids Hassign) as Happ.
  fold merged in Happ.
  destruct (assign_dates_shape _ _ _ Hassign) as [Hmonth Hrows].
  assert (Forall (λ kv : key * CatalogRow, kv.1.1 = month) (entries new_rows)) as Hnew.
  { unfold entries. rewrite Forall_fmap. eapply Forall_impl; [exact Hmonth|].
    intros r Hr. exact Hr. }
  assert (Forall (λ kv : key * CatalogRow, ¬ kv.1.1 = month)
            (purge_month month all_rows)) as Hold.
  { apply Forall_forall. intros kv [? ?]%list_elem_of_filter. done. }
  assert (filter (λ kv : key * CatalogRow, kv.1.1 = month) merged = entries new_rows)
    as Hexact.
  { rewrite Happ, filter_app, (filter_none _ _ Hold), (filter_all _ _ Hnew). done. }
  split; [exact Hexact|]. split; [|split].
  - rewrite Happ, fmap_app. apply NoDup_app. split; [|split].
    + unfold purge_month. clear -Hnd.
      induction all_rows as [|[k v] d IH]; simpl in *; [constructor|].
      apply NoDup_cons in Hnd as [Hk Hnd]. rewrite filter_cons.
      case_decide; simpl; [|auto]. apply NoDup_cons. split; [|auto].
      intros ([k' v'] & -> & [? ?]%list_elem_of_filter)%list_elem_of_fmap.
      apply Hk. by apply (list_elem_of_fmap_2 fst _ (k', v')).
    + intros k Hk%purge_month_keys ([k' r] & -> & Hin)%list_elem_of_fmap.
      rewrite Forall_forall in Hnew. by apply Hk, (Hnew _ Hin).
    + unfold entries. rewrite <- list_fmap_compose.
      assert (NoDup (image_id <$> new_rows)) as Hnd' by (by rewrite Hrows).
      clear -Hnd'. induction new_rows as [|r rows IH]; simpl in *; [constructor|].
      apply NoDup_cons in Hnd' as [Hr Hnd']. apply NoDup_cons. split; [|auto].
      intros (r' & [= _ Hid] & Hin)%list_elem_of_fmap.
      apply Hr. rewrite Hid. by apply list_elem_of_fmap_2.
  - rewrite Happ, filter_app.
    rewrite (filter_none (λ kv : key * CatalogRow, kv.1.1 ≠ month) (entries new_rows)).
    + rewrite app_nil_r. unfold purge_month.
      rewrite list_filter_filter. apply list_filter_iff. tauto.
    + eapply Forall_impl; [exact Hnew|]. simpl. tauto.
  - intros k Hk. rewrite Happ, dict_get_app, dict_get_purge_other by done.
    destruct (dict_get k all_rows); [done|].
    apply dict_get_None.
    intros ([k' r] & -> & Hin)%list_elem_of_fmap.
    rewrite Forall_forall in Hnew. by apply Hk, (Hnew _ Hin).
Qed.

End CatalogMerge.

Section CatalogMergeExample.
Import Catalog CatalogProps.

Lemma merge_refetched_month_witness :
  ∃ new_rows,
    Catalog.assign_dates "202501" (Archive.get_image_ids sample_page) = Some new_rows
    ∧ filter (λ kv : key * CatalogRow, kv.1.1 = "202501")
             (merge_month "202501" new_rows sample_catalog)
      = [(("202501", "Heron"), mkRow "2025-01-02" "202501" "Heron" "202501_Heron.jpg");
         (("202501", "Dunes"), mkRow "2025-01-01" "202501" "Dunes" "202501_Dunes.jpg")].
Proof.
  eexists. split; [vm_compute; reflexivity|].
  refine (proj1 (merge_refetched_month sample_page "202501" _ sample_catalog _ _)).
  - apply load_existing_NoDup.
  - vm_compute. reflexivity.
Defined.

End CatalogMergeExample.

(** * The catalog store: write *)

Section CatalogWrite.
Import Catalog CatalogProps.

Lemma insert_row_perm r l : insert_row r l ≡ₚ r :: l.
Proof.
  induction l as [|x l IH]; simpl; [done|].
  destruct (String.leb _ _); [done|].
  rewrite IH. apply Permutation_swap.
Qed.

Lemma sorted_by_date_perm rows : sorted_by_date rows ≡ₚ rows.
Proof.
  induction rows as [|r rows IH]; simpl; [done|].
  rewrite insert_row_perm. by rewrite IH.
Qed.

Lemma insert_row_sorted r l :
  StronglySorted date_le l → StronglySorted date_le (insert_row r l).
Proof.
  induction l as [|x l IH]; simpl; intros Hs.
  - repeat constructor.
  - apply StronglySorted_cons in Hs as [Hx Hl].
    destruct (String.leb (date r) (date x)) eqn:E.
    + apply StronglySorted_cons. split; [|by apply StronglySorted_cons].
      assert (date_le r x) as Hrx by (unfold date_le, String.le; by rewrite E).
      constructor; [done|].
      eapply Forall_impl; [exact Hx|]. intros y Hy.
      unfold date_le in *. by etrans.
    + apply StronglySorted_cons. split; [|by apply IH].
      assert (date_le x r) as Hxr.
      { unfold date_le. destruct (total String.le (date x) (date r)) as [?|Hle]; [done|].
        unfold String.le in Hle. by rewrite E in Hle. }
      rewrite (insert_row_perm r l). by constructor.
Qed.

Lemma sorted_by_date_sorted rows : StronglySorted date_le (sorted_by_date rows).
Proof.
  induction rows as [|r rows IH]; simpl; [constructor|].
  by apply insert_row_sorted.
Qed.

Lemma string_leb_refl s : String.leb s s = true.
Proof.
  assert (String.le s s) as H by reflexivity.
  unfold String.le in H. by destruct (String.leb s s).
Qed.

(** Rows with the same date keep the order they had. *)
Lemma insert_row_stable d r l :
  filter (λ x, date x = d) (insert_row r l)
  = filter (λ x, date x = d) (r :: l).
Proof.
  induction l as [|x l IH]; simpl; [done|].
  destruct (String.leb (date r) (date x)) eqn:E; [done|].
  rewrite (filter_cons _ x), IH, !filter_cons.
  destruct (decide (date x = d)) as [Hx|?], (decide (date r = d)) as [Hr|?];
    try done.
  rewrite Hx, Hr, string_leb_refl in E. done.
Qed.

Lemma sorted_by_date_stable d rows :
  filter (λ x, date x = d) (sorted_by_date rows) = filter (λ x, date x = d) rows.
Proof.
  induction rows as [|r rows IH]; simpl; [done|].
  by rewrite insert_row_stable, !filter_cons, IH.
Qed.

(** [open("w")] has already emptied the catalog when the first line is
    written: stopped there, the file holds neither the old nor the new
    rows. *)
Lemma write_csv_not_atomic :
  ¬ write_is_atomic
      (Some [header; ["2025-01-01"; "202501"; "Dunes"; "202501_Dunes.jpg"]])
      [mkRow "2025-01-01" "202501" "Dunes" "202501_Dunes.jpg";
       mkRow "2025-01-02" "202501" "Heron" "202501_Heron.jpg"].
Proof.
  intros H. destruct (H (Written 0)) as [E|E]; vm_compute in E; discriminate.
Qed.

(** C4 (amended). [write_csv] writes the header and then all the rows
    sorted by ascending date, rows of equal date in the order they had.  It
    writes into the catalog file itself: from the moment the file is opened
    the previous content is gone, and a write stopped after [k] lines
    leaves the first [k] lines of the new file, whatever the file held
    before. *)
Theorem write_csv_sorted_in_place rows :
  ∃ rows_sorted,
    write_csv rows = header :: (row_line <$> rows_sorted)
    ∧ rows_sorted ≡ₚ rows
    ∧ StronglySorted date_le rows_sorted
    ∧ (∀ d, filter (λ x, date x = d) rows_sorted = filter (λ x, date x = d) rows)
    ∧ (∀ old, file_at old rows (Written 0) = Some [])
    ∧ (∀ old k, ∃ lines, file_at old rows (Written k) = Some lines
                         ∧ lines `prefix_of` write_csv rows
                         ∧ length lines = min k (S (length rows)))
    ∧ (∀ old, file_at old rows Closed = Some (write_csv rows)).
Proof.
  exists (sorted_by_date rows).
  split; [done|]. split; [apply sorted_by_date_perm|].
  split; [apply sorted_by_date_sorted|].
  split; [intros; apply sorted_by_date_stable|].
  split; [done|]. split; [|done].
  intros old k. eexists. split; [done|]. split; [apply prefix_take|].
  rewrite length_take. unfold write_csv. simpl.
  rewrite length_fmap, (Permutation_length (sorted_by_date_perm rows)). done.
Qed.

End CatalogWrite.

(** * The reconciler *)

Section Reconciler.
Import Catalog State Reconcile Props.

Lemma mark_present_spec present s :
  mark_present present s
  = mkState (done_months s) (keys_of present ∪ done_images s) (failed_images s).
Proof.
  unfold mark_present, keys_of. revert s.
  induction present as [|p present IH]; intros s; simpl.
  - destruct s; simpl. f_equal. set_solver.
  - rewrite IH. simpl. f_equal. set_solver.
Qed.

Lemma unmark_missing_spec missing s :
  unmark_missing missing s
  = mkState (done_months s) (done_images s ∖ keys_of missing)
            (failed_images s ∖ keys_of missing).
Proof.
  unfold unmark_missing, keys_of. revert s.
  induction missing as [|p missing IH]; intros s; simpl.
  - destruct s; simpl. f_equal; set_solver.
  - rewrite IH. simpl. f_equal; set_solver.
Qed.

Lemma reconcile_spec this_month t s :
  reconcile this_month t s
  = let mwc : gset string := list_to_set (yyyymm <$> catalog_rows t) in
    let mwm : gset string := list_to_set (fst <$> missing t) in
    mkState
      (((done_months s ∖ mwm) ∪ filter (λ m, m ≠ this_month) (mwc ∖ mwm))
         ∖ {[this_month]})
      ((keys_of (present t) ∪ done_images s) ∖ keys_of (missing t))
      (failed_images s ∖ keys_of (missing t)).
Proof.
  unfold reconcile, update_done_months.
  by rewrite unmark_missing_spec, mark_present_spec.
Qed.

Lemma prepare_sync_Some this_month start end_ catalog fs state_file state' code :
  main this_month start end_ catalog fs state_file = Some (state', code) →
  ∃ months,
    Months.generate_months start end_ = Some months
    ∧ state' = reconcile this_month (tally months catalog fs) (load_state state_file)
    ∧ code = if bool_decide (missing (tally months catalog fs) ≠ []) then 1%Z else 0%Z.
Proof.
  unfold main. destruct (Months.generate_months start end_) as [months|]; [|done].
  intros [= <- <-]. by exists months.
Qed.

Lemma catalog_rows_window months catalog fs row :
  row ∈ catalog_rows (tally months catalog fs) ↔ in_window catalog months row.
Proof.
  unfold tally, in_window, load_catalog; simpl. destruct catalog as [rows|].
  - rewrite list_elem_of_filter, elem_of_list_to_set.
    split; [intros [? ?]; by exists rows|intros (? & [= <-] & ? & ?); done].
  - split; [by intros ?%elem_of_nil|intros (? & ? & _); done].
Qed.

Lemma elem_of_keys_of k l :
  k ∈ keys_of l ↔ ∃ p, p ∈ l ∧ k = item_key p.1 p.2.
Proof.
  unfold keys_of. rewrite elem_of_list_to_set, list_elem_of_fmap. naive_solver.
Qed.

Lemma elem_of_present_keys months catalog fs k :
  k ∈ keys_of (present (tally months catalog fs)) ↔
  ∃ row, in_window catalog months row
         ∧ image_is_present fs (filename row) = true ∧ k = row_item_key row.
Proof.
  rewrite elem_of_keys_of. unfold tally; simpl. unfold present_rows. split.
  - intros (p & (row & -> & [? ?]%list_elem_of_filter)%list_elem_of_fmap & ->).
    exists row. by rewrite <- (catalog_rows_window months catalog fs).
  - intros (row & Hw & ? & ->). exists (row_key row). split; [|done].
    apply list_elem_of_fmap_2, list_elem_of_filter. split; [done|].
    by apply (catalog_rows_window months catalog fs) in Hw.
Qed.

Lemma elem_of_missing_keys months catalog fs k :
  k ∈ keys_of (missing (tally months catalog fs)) ↔
  ∃ row, in_window catalog months row
         ∧ image_is_present fs (filename row) = false ∧ k = row_item_key row.
Proof.
  rewrite elem_of_keys_of. unfold tally; simpl. unfold missing_rows. split.
  - intros (p & (row & -> & [? ?]%list_elem_of_filter)%list_elem_of_fmap & ->).
    exists row. by rewrite <- (catalog_rows_window months catalog fs).
  - intros (row & Hw & ? & ->). exists (row_key row). split; [|done].
    apply list_elem_of_fmap_2, list_elem_of_filter. split; [done|].
    by apply (catalog_rows_window months catalog fs) in Hw.
Qed.

(** A key of [failed_images] that no missing entry carries is still in
    [failed_images] after the run. *)
Lemma failed_key_survives this_month start end_ catalog fs state_file state' code
    months k :
  main this_month start end_ catalog fs state_file = Some (state', code) →
  Months.generate_months start end_ = Some months →
  k ∈ failed_images (load_state state_file) →
  k ∉ keys_of (missing (tally months catalog fs)) →
  k ∈ failed_images state'.
Proof.
  intros (months' & Hm & -> & _)%prepare_sync_Some Hgen Hk Hnot.
  assert (months' = months) as -> by congruence.
  rewrite reconcile_spec. simpl. set_solver.
Qed.

(** A file that is on disk, listed in the catalog and recorded under
    [failed_images] is recorded under both sets after the run. *)
Lemma present_key_stays_failed :
  ¬ separates_done_and_failed "202502" "202501" "202502"
      (Some [dunes]) {[ "202501_Dunes.jpg" := zeros 50000 ]}
      (Some (mkState ∅ ∅ {[ "202501/Dunes" ]})).
Proof.
  intros H.
  destruct (main "202502" "202501" "202502" (Some [dunes])
              {[ "202501_Dunes.jpg" := zeros 50000 ]}
              (Some (mkState ∅ ∅ {[ "202501/Dunes" ]})))
    as [[state' code]|] eqn:Hmain; [|vm_compute in Hmain; discriminate].
  assert (Months.generate_months "202501" "202502" = Some ["202501"; "202502"])
    as Hgen by reflexivity.
  assert (in_window (Some [dunes]) ["202501"; "202502"] dunes) as Hw.
  { exists [dunes]. split; [done|]. split; repeat constructor. }
  specialize (H state' code _ dunes Hmain Hgen Hw).
  replace (image_is_present _ (filename dunes)) with true in H
    by (vm_compute; reflexivity).
  destruct H as [_ Hnot]. apply Hnot.
  eapply failed_key_survives; [exact Hmain|exact Hgen| |].
  - simpl. apply elem_of_singleton_2. reflexivity.
  - replace (missing _) with (@nil (string * string)) by (vm_compute; reflexivity).
    apply not_elem_of_empty.
Qed.

(** C1 (amended). After a run over a window: the key of an entry whose
    file is missing is in neither [done_images] nor [failed_images]; the key
    of an entry whose file is present is in [done_images] (provided every
    entry of the window with that key is present, as when the catalog has
    one row per key), and it is in [failed_images] exactly when it was
    there before the run. *)
Theorem reconcile_image_sets this_month start end_ catalog fs state_file
    state' code months row :
  main this_month start end_ catalog fs state_file = Some (state', code) →
  Months.generate_months start end_ = Some months →
  in_window catalog months row →
  (image_is_present fs (filename row) = false →
     (row_item_key row ∉ done_images state')
     ∧ (row_item_key row ∉ failed_images state'))
  ∧ (image_is_present fs (filename row) = true →
     (∀ row', in_window catalog months row' →
              row_item_key row' = row_item_key row →
              image_is_present fs (filename row') = true) →
     (row_item_key row ∈ done_images state')
     ∧ (row_item_key row ∈ failed_images state'
        ↔ row_item_key row ∈ failed_images (load_state state_file))).
Proof.
  intros (months' & Hm & -> & _)%prepare_sync_Some Hgen Hw.
  assert (months' = months) as -> by congruence.
  rewrite reconcile_spec. simpl. split.
  - intros Hmiss.
    assert (row_item_key row ∈ keys_of (missing (tally months catalog fs))) as Hk
      by (apply elem_of_missing_keys; by exists row).
    rewrite !elem_of_difference. tauto.
  - intros Hpres Hall.
    assert (row_item_key row ∈ keys_of (present (tally months catalog fs))) as Hk
      by (apply elem_of_present_keys; by exists row).
    assert (row_item_key row ∉ keys_of (missing (tally months catalog fs))) as Hn.
    { intros (row' & Hw' & Hmiss & Hkey)%elem_of_missing_keys.
      rewrite (Hall row' Hw') in Hmiss; done. }
    rewrite !elem_of_difference, elem_of_union. tauto.
Qed.

Lemma reconcile_image_sets_witness :
  ∃ state' code,
    main "202502" "202501" "202502" (Some [dunes; heron])
         {[ "high/202501_Dunes.jpg" := zeros 50000 ]}
         (Some (mkState {[ "202501" ]} {[ "202501/Heron" ]} {[ "202501/Heron" ]}))
    = Some (state', code)
    ∧ (row_item_key heron ∉ done_images state')
    ∧ (row_item_key heron ∉ failed_images state').
Proof.
  eexists _, _. split; [vm_compute; reflexivity|].
  refine (proj1 (reconcile_image_sets "202502" "202501" "202502"
                   (Some [dunes; heron]) {[ "high/202501_Dunes.jpg" := zeros 50000 ]}
                   (Some (mkState {[ "202501" ]} {[ "202501/Heron" ]} {[ "202501/Heron" ]}))
                   _ _ ["202501"; "202502"] heron _ _ _) _).
  - vm_compute. reflexivity.
  - vm_compute. reflexivity.
  - exists [dunes; heron]. split; [reflexivity|]. split; repeat constructor.
  - vm_compute. reflexivity.
Defined.

(** C2. In the state written by a run, with [prior] the state found:
    a month is in [done_months] exactly when it is not the current month,
    has no missing entry, and either was there before or has an entry in
    the window.  So a month that was not there is added iff it has an
    entry, no missing entry and is not the current month; a month with a
    missing entry is not there; and the current month is never there. *)
Theorem reconcile_done_months this_month start end_ catalog fs state_file
    state' code months :
  main this_month start end_ catalog fs state_file = Some (state', code) →
  Months.generate_months start end_ = Some months →
  let prior := load_state state_file in
  let has_entry m := ∃ row, in_window catalog months row ∧ yyyymm row = m in
  let has_missing m :=
    ∃ row, in_window catalog months row ∧ yyyymm row = m
           ∧ image_is_present fs (filename row) = false in
  (∀ m, m ∈ done_months state' ↔
        m ≠ this_month ∧ ¬ has_missing m ∧ (m ∈ done_months prior ∨ has_entry m))
  ∧ (∀ m, m ∉ done_months prior →
          (m ∈ done_months state' ↔ has_entry m ∧ ¬ has_missing m ∧ m ≠ this_month))
  ∧ (∀ m, has_missing m → m ∉ done_months state')
  ∧ this_month ∉ done_months state'.
Proof.
  intros (months' & Hm & -> & _)%prepare_sync_Some Hgen prior has_entry has_missing.
  subst prior.
  assert (months' = months) as -> by congruence.
  assert (∀ m, m ∈ (list_to_set (yyyymm <$> catalog_rows (tally months catalog fs))
                      : gset string)
               ↔ has_entry m) as Hentry.
  { intros m. rewrite elem_of_list_to_set, list_elem_of_fmap. unfold has_entry.
    split.
    - intros (row & -> & Hin). exists row.
      by apply (catalog_rows_window months catalog fs) in Hin.
    - intros (row & Hw & <-). exists row. split; [done|].
      by apply (catalog_rows_window months catalog fs). }
  assert (∀ m, m ∈ (list_to_set (fst <$> missing (tally months catalog fs))
                      : gset string)
               ↔ has_missing m) as Hmissing.
  { intros m. rewrite elem_of_list_to_set, list_elem_of_fmap. unfold has_missing.
    unfold tally; simpl. unfold missing_rows. split.
    - intros (p & -> & (row & -> & [? Hin]%list_elem_of_filter)%list_elem_of_fmap).
      exists row. split; [|done].
      by apply (catalog_rows_window months catalog fs).
    - intros (row & Hw & <- & ?). exists (row_key row). split; [done|].
      apply list_elem_of_fmap_2, list_elem_of_filter. split; [done|].
      by apply (catalog_rows_window months catalog fs) in Hw. }
  remember (tally months catalog fs) as t eqn:Ht.
  assert (∀ m, m ∈ done_months (reconcile this_month t (load_state state_file)) ↔
               m ≠ this_month ∧ ¬ has_missing m
               ∧ (m ∈ done_months (load_state state_file) ∨ has_entry m)) as Hchar.
  { intros m. rewrite reconcile_spec. simpl.
    rewrite elem_of_difference, elem_of_union, elem_of_filter, !elem_of_difference.
    rewrite elem_of_singleton, Hentry, Hmissing. tauto. }
  split; [exact Hchar|]. split; [|split].
  - intros m Hnot. rewrite Hchar. tauto.
  - intros m Hmiss. rewrite Hchar. tauto.
  - rewrite Hchar. tauto.
Qed.

Lemma reconcile_done_months_witness :
  ∃ state' code,
    main "202502" "202501" "202502"
         (Some [dunes; mkRow "2025-02-01" "202502" "Heron" "202502_Heron.jpg"])
         {[ "202501_Dunes.jpg" := zeros 50000; "202502_Heron.jpg" := zeros 50000 ]}
         None
    = Some (state', code)
    ∧ "202502" ∉ done_months state'.
Proof.
  eexists _, _. split; [vm_compute; reflexivity|].
  refine (proj2 (proj2 (proj2 (reconcile_done_months "202502" "202501" "202502"
    (Some [dunes; mkRow "2025-02-01" "202502" "Heron" "202502_Heron.jpg"])
    {[ "202501_Dunes.jpg" := zeros 50000; "202502_Heron.jpg" := zeros 50000 ]}
    None _ _ ["202501"; "202502"] _ _)))).
  - vm_compute. reflexivity.
  - vm_compute. reflexivity.
Defined.

Lemma reconcile_twice this_month t s :
  reconcile this_month t (reconcile this_month t s) = reconcile this_month t s.
Proof.
  rewrite !reconcile_spec. simpl. f_equal; set_solver.
Qed.

(** C7. Running the reconciler again on the state it has just written,
    with the same window, catalog, files and current month, writes the
    same state and returns the same exit code. *)
Theorem reconcile_idempotent this_month start end_ catalog fs state_file
    state' code :
  main this_month start end_ catalog fs state_file = Some (state', code) →
  main this_month start end_ catalog fs (Some state') = Some (state', code).
Proof.
  intros (months & Hm & -> & ->)%prepare_sync_Some.
  unfold main. rewrite Hm. simpl. by rewrite reconcile_twice.
Qed.

Lemma reconcile_idempotent_witness :
  ∃ state' code,
    main "202502" "202501" "202502" (Some [dunes; heron])
         {[ "202501_Dunes.jpg" := zeros 50000 ]}
         (Some (mkState {[ "202501" ]} {[ "202501/Heron" ]} ∅))
    = Some (state', code)
    ∧ main "202502" "202501" "202502" (Some [dunes; heron])
           {[ "202501_Dunes.jpg" := zeros 50000 ]} (Some state')
      = Some (state', code).
Proof.
  eexists _, _. split; [vm_compute; reflexivity|].
  apply (reconcile_idempotent _ _ _ _ _
           (Some (mkState {[ "202501" ]} {[ "202501/Heron" ]} ∅))).
  vm_compute. reflexivity.
Defined.

End Reconciler.

(** * The scraper *)

Section ScraperRun.
Import State Scraper RunProps.

Lemma count_failed_app l1 l2 :
  count_failed (l1 ++ l2) = count_failed l1 + count_failed l2.
Proof. unfold count_failed. by rewrite filter_app, length_app. Qed.

Lemma extends_refl D r : extends D r r.
Proof.
  exists []. rewrite app_nil_r. split_and!; try done.
  by intros ?? ?%elem_of_nil.
Qed.

Lemma extends_trans D r1 r2 r3 :
  extends D r1 r2 → extends D r2 r3 → extends D r1 r3.
Proof.
  intros (e1 & Hl1 & Hm1 & Hn1 & Hd1 & Hf1 & Hk1)
         (e2 & Hl2 & Hm2 & Hn2 & Hd2 & Hf2 & Hk2).
  exists (e1 ++ e2). split_and!.
  - by rewrite Hl2, Hl1, app_assoc.
  - by apply Forall_app.
  - rewrite count_failed_app. lia.
  - by etrans.
  - by etrans.
  - intros m id [Hin|Hin]%elem_of_app; [apply Hf2|]; eauto.
Qed.

Lemma fetch_item_reqs args net yyyymm img_id dest fs0 ok fs1 reqs :
  fetch_item args net yyyymm img_id dest fs0 = (ok, fs1, reqs) →
  Forall (λ e, event_month e = yyyymm ∧ is_failed e = false) reqs.
Proof.
  unfold fetch_item. intros H.
  repeat case_match; simplify_eq; repeat constructor.
Qed.

Lemma process_item_extends D args net yyyymm r img_id :
  yyyymm ∉ D → extends D r (process_item args net yyyymm r img_id).
Proof.
  intros HD. unfold process_item.
  destruct (on_disk _ _).
  { exists []. simpl. rewrite app_nil_r.
    split_and!; [done|done|done|done|done|by intros ?? ?%elem_of_nil]. }
  case_bool_decide.
  { exists []. simpl. rewrite app_nil_r.
    split_and!; [done|done|done|done|done|by intros ?? ?%elem_of_nil]. }
  destruct (fetch_item _ _ _ _ _ _) as [[ok fs1] reqs] eqn:Hfetch.
  apply fetch_item_reqs in Hfetch.
  assert (Forall (λ e, event_month e ∉ D) reqs) as Hm.
  { eapply Forall_impl; [exact Hfetch|]. by intros e [-> _]. }
  assert (count_failed reqs = 0) as Hc.
  { unfold count_failed. rewrite filter_none; [done|].
    eapply Forall_impl; [exact Hfetch|]. intros e [_ ->]. done. }
  assert (∀ m id, PrintFailed m id ∉ reqs) as Hnf.
  { intros m id Hin. rewrite Forall_forall in Hfetch.
    by destruct (Hfetch _ Hin) as [_ ?]. }
  destruct ok.
  - exists reqs. simpl. split_and!; [done|done|lia|done|done|].
    intros m id Hin. by destruct (Hnf m id).
  - exists (reqs ++ [PrintFailed yyyymm img_id]). simpl.
    split_and!; [done| | |done| |].
    + apply Forall_app. split; [done|]. by repeat constructor.
    + rewrite count_failed_app, Hc. unfold count_failed. simpl. lia.
    + apply union_subseteq_r.
    + intros m id [Hin|Hin]%elem_of_app; [by destruct (Hnf m id)|].
      apply list_elem_of_singleton in Hin as [= -> ->].
      apply elem_of_union_l. by apply elem_of_singleton.
Qed.

Lemma process_items_extends D args net yyyymm ids r :
  yyyymm ∉ D → extends D r (fold_left (process_item args net yyyymm) ids r).
Proof.
  intros HD. revert r. induction ids as [|id ids IH]; intros r; simpl.
  - apply extends_refl.
  - eapply extends_trans; [by apply process_item_extends|apply IH].
Qed.

Lemma process_month_extends D args net r yyyymm :
  D ⊆ done_months (st r) → extends D r (process_month args net r yyyymm).
Proof.
  intros HD. unfold process_month.
  case_bool_decide as Hdone; [apply extends_refl|].
  assert (yyyymm ∉ D) as HmD by (intros ?; by apply Hdone, HD).
  assert (extends D r (with_event (ReqIndex yyyymm) r)) as H1.
  { exists [ReqIndex yyyymm]. simpl.
    split_and!; [done|by repeat constructor| |done|done|].
    - unfold count_failed. simpl. lia.
    - intros m id Hin. apply list_elem_of_singleton in Hin. done. }
  assert (∀ r2, extends D r2
            (checkpoint (with_state (add_done_month yyyymm (st r2)) r2))) as H2.
  { intros r2. exists []. simpl. rewrite app_nil_r.
    split_and!; [done|done|done|apply union_subseteq_r|done|].
    by intros ?? ?%elem_of_nil. }
  case_bool_decide.
  - eapply extends_trans; [exact H1|apply H2].
  - eapply extends_trans; [exact H1|].
    eapply extends_trans; [by apply process_items_extends|apply H2].
Qed.

Lemma process_months_extends D args net months r :
  D ⊆ done_months (st r) →
  extends D r (fold_left (process_month args net) months r).
Proof.
  revert r. induction months as [|m months IH]; intros r HD; simpl.
  - apply extends_refl.
  - pose proof (process_month_extends D args net r m HD) as H1.
    eapply extends_trans; [exact H1|]. apply IH.
    destruct H1 as (? & _ & _ & _ & Hd & _). by etrans.
Qed.

Lemma scrape_Some args net out state_file r code :
  Scraper.main args net out state_file = Some (r, code) →
  ∃ months,
    r = fold_left (process_month args net) months
          (mkRun (if reset args then empty_state else load_state state_file)
                 out 0 0 0 state_file [])
    ∧ code = if bool_decide (n_fail r = 0) then 0%Z else 1%Z.
Proof.
  unfold Scraper.main.
  destruct (Months.generate_months _ _) as [months|]; [|done].
  intros [= <- <-]. by eexists.
Qed.

(** ** Fallback between the two sources *)



(** An item that is attempted: the state after it, from what [fetch_item]
    returned. *)
Lemma process_item_attempted args net yyyymm r img_id ok fs1 reqs :
  attempted r yyyymm img_id →
  fetch_item args net yyyymm img_id (dest_of yyyymm img_id) (fs r) = (ok, fs1, reqs) →
  process_item args net yyyymm r img_id
  = if ok
    then mkRun (add_done_image (item_key yyyymm img_id) (st r)) fs1
               (S (n_dl r)) (n_skip r) (n_fail r) (saved r) (log r ++ reqs)
    else mkRun (add_failed_image (item_key yyyymm img_id) (st r))
               (delete (dest_of yyyymm img_id) fs1)
               (n_dl r) (n_skip r) (S (n_fail r)) (saved r)
               (log r ++ reqs ++ [PrintFailed yyyymm img_id]).
Proof.
  intros [Hdisk Hkey] Hfetch. unfold process_item.
  fold (dest_of yyyymm img_id). rewrite Hdisk.
  rewrite bool_decide_eq_false_2 by done.
  by rewrite Hfetch.
Qed.





(** ** Month completion *)

Lemma scrape_run_extends args net out state_file r code :
  Scraper.main args net out state_file = Some (r, code) →
  let state := if reset args then empty_state else load_state state_file in
  extends (done_months state) (mkRun state out 0 0 0 state_file []) r.
Proof.
  intros (months & -> & _)%scrape_Some state.
  by apply process_months_extends.
Qed.

(** C10. A month that the scraper goes through (it was not in
    [done_months]) is in [done_months] afterwards and the state saved to
    the state file is the state in memory, whatever happened to its items:
    the keys of the items reported failed are in [failed_images] of that
    same state.  A later run that loads this state makes no request for
    that month and reports nothing about it, and [failed_images] keeps
    every key it had. *)
Theorem done_month_is_final args net r yyyymm :
  yyyymm ∉ done_months (st r) →
  let r' := process_month args net r yyyymm in
  (yyyymm ∈ done_months (st r'))
  ∧ saved r' = Some (st r')
  ∧ (∃ evs, log r' = log r ++ evs
            ∧ n_fail r' = n_fail r + count_failed evs
            ∧ ∀ id, PrintFailed yyyymm id ∈ evs →
                    item_key yyyymm id ∈ failed_images (st r'))
  ∧ (∀ args2 net2 out2 r2 code,
       reset args2 = false →
       Scraper.main args2 net2 out2 (saved r') = Some (r2, code) →
       (∀ e, e ∈ log r2 → event_month e ≠ yyyymm)
       ∧ n_fail r2 = count_failed (log r2)
       ∧ failed_images (st r') ⊆ failed_images (st r2)).
Proof.
  intros Hnot r'.
  assert (yyyymm ∈ done_months (st r') ∧ saved r' = Some (st r')) as [Hdone Hsaved].
  { subst r'. unfold process_month.
    rewrite bool_decide_eq_false_2 by done.
    case_bool_decide; simpl; (split; [|done]);
      apply elem_of_union_l; by apply elem_of_singleton. }
  split_and!; [done|done| |].
  - destruct (process_month_extends ∅ args net r yyyymm) as
      (evs & Hlog & _ & Hn & _ & _ & Hk); [apply empty_subseteq|].
    exists evs. split_and!; [done|done|]. intros id. apply Hk.
  - intros args2 net2 out2 r2 code Hreset Hmain.
    apply scrape_run_extends in Hmain. rewrite Hreset, Hsaved in Hmain.
    simpl in Hmain. destruct Hmain as (evs & Hlog & Hm & Hn & _ & Hf & _).
    simpl in *. subst. split_and!; [|done|done].
    intros e He Heq. rewrite Forall_forall in Hm.
    apply (Hm e He). by rewrite Heq.
Qed.

Lemma done_month_is_final_witness :
  let r' := process_month detail_first tiny_remote fresh_run "202501" in
  ("202501" ∈ done_months (st r')) ∧ n_fail r' = 1.
Proof.
  intros r'. split; [|reflexivity].
  refine (proj1 (done_month_is_final detail_first tiny_remote fresh_run "202501" _)).
  simpl. apply not_elem_of_empty.
Defined.

(** ** Exit codes *)

(** C8. The reconciler returns 1 when some entry of the window is
    missing and 0 when none is; the scraper returns 0 when it reported no
    failed item and 1 when it reported at least one ([n_fail] counts the
    [FAILED] lines of the run). *)
Theorem exit_codes :
  (∀ this_month start end_ catalog wallpapers state_file state' code months,
     Reconcile.main this_month start end_ catalog wallpapers state_file
     = Some (state', code) →
     Months.generate_months start end_ = Some months →
     let missing := Reconcile.missing (Reconcile.tally months catalog wallpapers) in
     (code = 1%Z ↔ missing ≠ []) ∧ (code = 0%Z ↔ missing = [])
     ∧ (missing ≠ [] ↔
        ∃ row, Props.in_window catalog months row
               ∧ Reconcile.image_is_present wallpapers (Catalog.filename row) = false))
  ∧ (∀ args net out state_file r code,
       Scraper.main args net out state_file = Some (r, code) →
       n_fail r = count_failed (log r)
       ∧ (code = 0%Z ↔ n_fail r = 0) ∧ (code = 1%Z ↔ 1 ≤ n_fail r)).
Proof.
  split.
  - intros this_month start end_ catalog wallpapers state_file state' code months
      (months' & Hm & _ & ->)%prepare_sync_Some Hgen missing.
    assert (months' = months) as -> by congruence. fold missing.
    split_and!.
    + case_bool_decide; split; done.
    + case_bool_decide; split; done.
    + split.
      * intros Hne. destruct missing as [|p l] eqn:E; [done|].
        assert (Props.row_item_key_of_pair p ∈ Props.keys_of missing) as Hin.
        { apply elem_of_keys_of. exists p. split; [|done].
          subst missing. rewrite E. by left. }
        apply elem_of_missing_keys in Hin as (row & ? & ? & _). by exists row.
      * intros (row & Hw & Hmiss) E.
        assert (Props.row_item_key row ∈ Props.keys_of missing) as Hin
          by (apply elem_of_missing_keys; by exists row).
        rewrite E in Hin. by apply not_elem_of_empty in Hin.
  - intros args net out state_file r code Hmain.
    pose proof (scrape_run_extends _ _ _ _ _ _ Hmain) as (evs & Hlog & _ & Hn & _).
    simpl in *. subst evs.
    apply scrape_Some in Hmain as (months & _ & ->).
    split_and!; [done| |].
    + case_bool_decide; split; done.
    + case_bool_decide; split; try done; lia.
Qed.

Lemma exit_codes_witness :
  (∃ state', Reconcile.main "202502" "202501" "202502"
               (Some [Props.dunes]) ∅ None = Some (state', 1%Z))
  ∧ (∃ r, Scraper.main detail_first tiny_remote ∅ None = Some (r, 1%Z)
          ∧ n_fail r = 1).
Proof.
  split.
  - destruct (Reconcile.main "202502" "202501" "202502" (Some [Props.dunes]) ∅ None)
      as [[state' code]|] eqn:Hmain; [|vm_compute in Hmain; discriminate].
    exists state'.
    destruct (proj1 exit_codes _ _ _ _ _ _ _ _ ["202501"; "202502"] Hmain)
      as ((_ & Hone) & _); [reflexivity|].
    rewrite Hone; [reflexivity|]. vm_compute. discriminate.
  - destruct (Scraper.main detail_first tiny_remote ∅ None)
      as [[r code]|] eqn:Hmain; [|vm_compute in Hmain; discriminate].
    exists r.
    destruct (proj2 exit_codes _ _ _ _ _ _ Hmain) as (_ & _ & (_ & Hone)).
    assert (n_fail r = 1) as Hn.
    { vm_compute in Hmain. by injection Hmain as <- _. }
    rewrite Hone by lia. done.
Defined.

End ScraperRun.

(** * Requests with retries *)

Section Retries.
Import State Http.


End Retries.

(** * The listing of a month *)

Section Listing.
Import Archive Sorter.

Lemma after_last_slash_no_slash acc s :
  has_slash acc = false → has_slash (after_last_slash acc s) = false.
Proof.
  revert acc. induction s as [|c s IH]; intros acc Hacc; simpl; [done|].
  destruct (Ascii.eqb c "/") eqn:Ec; apply IH; [done|].
  clear IH. induction acc as [|a acc IHacc]; simpl in *.
  - by rewrite Ec.
  - apply orb_false_iff in Hacc as [-> Hacc]. simpl. by apply IHacc.
Qed.

Lemma elem_of_collect_ids seen hrefs x :
  x ∈ collect_ids seen hrefs ↔
  x ≠ EmptyString ∧ (x ∉ seen)
  ∧ ∃ href, href ∈ hrefs ∧ after_last_slash EmptyString href = x.
Proof.
  revert seen. induction hrefs as [|href rest IH]; intros seen; simpl.
  - split; [by intros ?%elem_of_nil|].
    intros (_ & _ & href & ?%elem_of_nil & _). done.
  - case_decide as Hd.
    + rewrite elem_of_cons, IH. split.
      * intros [->|(? & Hns & href' & ? & ?)].
        -- destruct Hd. split_and!; [done|done|]. exists href. split; [left|done].
        -- split_and!; [done| |].
           ++ intros ?. apply Hns. by apply elem_of_union_r.
           ++ exists href'. split; [by right|done].
      * intros (? & Hns & href' & [->|?]%elem_of_cons & Hx); [by left|].
        destruct (decide (x = after_last_slash EmptyString href)) as [->|Hne];
          [by left|right].
        split_and!; [done| |by exists href'].
        intros [?%elem_of_singleton|?]%elem_of_union; done.
    + rewrite IH. split.
      * intros (? & ? & href' & ? & ?). split_and!; [done|done|].
        exists href'. split; [by right|done].
      * intros (? & Hns & href' & [->|?]%elem_of_cons & Hx).
        -- destruct Hd. subst x. done.
        -- split_and!; [done|done|by exists href'].
Qed.

Lemma collect_ids_sublist seen hrefs :
  collect_ids seen hrefs `sublist_of` (after_last_slash EmptyString <$> hrefs).
Proof.
  revert seen. induction hrefs as [|href rest IH]; intros seen; simpl; [done|].
  case_decide; [by apply sublist_skip|by apply sublist_cons].
Qed.

(** The order of the identifiers is that of their first occurrences: when
    [x] comes before [y], the page has [x] at a place with no [y] before
    it. *)
Lemma collect_ids_order seen hrefs (i j : nat) x y :
  collect_ids seen hrefs !! i = Some x →
  collect_ids seen hrefs !! j = Some y →
  i < j →
  ∃ k : nat, (after_last_slash EmptyString <$> hrefs) !! k = Some x
             ∧ y ∉ take k (after_last_slash EmptyString <$> hrefs).
Proof.
  revert seen i j. induction hrefs as [|href rest IH]; intros seen i j; simpl;
    [done|].
  case_decide as Hd.
  - destruct i as [|i]; simpl.
    + intros [= <-] _ _. exists 0. split; [done|]. simpl. apply not_elem_of_nil.
    + destruct j as [|j]; [lia|]. simpl. intros Hx Hy Hij.
      destruct (IH _ i j Hx Hy) as (k & Hk & Hnot); [lia|].
      exists (S k). split; [done|]. simpl. apply not_elem_of_cons. split; [|done].
      apply list_elem_of_lookup_2, elem_of_collect_ids in Hy as (_ & Hns & _).
      intros ->. apply Hns. by apply elem_of_union_l, elem_of_singleton.
  - intros Hx Hy Hij.
    destruct (IH _ i j Hx Hy Hij) as (k & Hk & Hnot).
    exists (S k). split; [done|]. simpl. apply not_elem_of_cons. split; [|done].
    apply list_elem_of_lookup_2, elem_of_collect_ids in Hy as (? & Hns & _).
    intros ->. by apply Hd.
Qed.

(** X2. The identifiers [get_image_ids] returns are exactly the non-empty
    last path segments of the anchors' [href]s, each once, in the order of
    their first occurrences on the page: when [x] comes before [y] in the
    result, [x] stands on the page at a place with no [y] before it.  None
    contains a slash; without a response the listing is empty. *)
Theorem get_image_ids_first_occurrences page :
  NoDup (get_image_ids page)
  ∧ (∀ x, x ∈ get_image_ids page ↔
          x ≠ EmptyString
          ∧ ∃ hrefs href, page = Some hrefs ∧ href ∈ hrefs
                          ∧ after_last_slash EmptyString href = x)
  ∧ (∀ hrefs (i j : nat) x y,
       page = Some hrefs →
       get_image_ids page !! i = Some x → get_image_ids page !! j = Some y →
       i < j →
       ∃ k : nat, (after_last_slash EmptyString <$> hrefs) !! k = Some x
                  ∧ y ∉ take k (after_last_slash EmptyString <$> hrefs))
  ∧ (∀ x, x ∈ get_image_ids page → has_slash x = false)
  ∧ (∀ hrefs, page = Some hrefs →
       get_image_ids page `sublist_of` (after_last_slash EmptyString <$> hrefs))
  ∧ (page = None → get_image_ids page = []).
Proof.
  assert (∀ x, x ∈ get_image_ids page ↔
               x ≠ EmptyString
               ∧ ∃ hrefs href, page = Some hrefs ∧ href ∈ hrefs
                               ∧ after_last_slash EmptyString href = x) as Hin.
  { intros x. destruct page as [hrefs|]; simpl.
    - rewrite elem_of_collect_ids. split.
      + intros (? & _ & href & ? & ?). split; [done|]. by exists hrefs, href.
      + intros (? & ? & href & [= <-] & ? & ?).
        split_and!; [done|apply not_elem_of_empty|by exists href].
    - split; [by intros ?%elem_of_nil|]. intros (_ & ? & ? & ? & _). done. }
  split_and!.
  - apply get_image_ids_NoDup.
  - exact Hin.
  - intros hrefs i j x y ->. simpl. apply collect_ids_order.
  - intros x (_ & hrefs & href & _ & _ & <-)%Hin.
    by apply after_last_slash_no_slash.
  - intros hrefs ->. apply collect_ids_sublist.
  - by intros ->.
Qed.

End Listing.

(** * The detail page *)

Section DetailPage.
Import Detail.

Lemma find_first {A} (f : A → bool) (l : list A) x :
  List.find f l = Some x →
  ∃ before after, l = before ++ x :: after ∧ f x = true
                  ∧ ∀ a, a ∈ before → f a = false.
Proof.
  induction l as [|y l IH]; simpl; [done|].
  destruct (f y) eqn:Ey.
  - intros [= ->]. exists [], l. split_and!; [done|done|].
    by intros a ?%elem_of_nil.
  - intros (before & after & -> & ? & Hb)%IH.
    exists (y :: before), after. split_and!; [done|done|].
    intros a [->|?]%elem_of_cons; auto.
Qed.

Lemma find_nothing {A} (f : A → bool) (l : list A) :
  List.find f l = None → ∀ a, a ∈ l → f a = false.
Proof.
  induction l as [|y l IH]; simpl; [by intros _ a ?%elem_of_nil|].
  destruct (f y) eqn:Ey; [done|].
  intros Hl a [->|?]%elem_of_cons; auto.
Qed.

Lemma is_prefix_app p s : is_prefix p s = true ↔ ∃ post, s = p +:+ post.
Proof.
  revert s. induction p as [|a p IH]; intros s; simpl.
  - split; [by exists s|done].
  - destruct s as [|b s]; simpl.
    + split; [done|]. intros (post & ?). done.
    + rewrite andb_true_iff, IH. split.
      * intros [->%Ascii.eqb_eq (post & ->)]. by exists post.
      * intros (post & [= -> ->]). split; [apply Ascii.eqb_refl|by exists post].
Qed.

(** [contains] is the search for a literal: the text occurs somewhere. *)
Lemma contains_app sub s :
  contains sub s = true ↔ ∃ pre post, s = pre +:+ sub +:+ post.
Proof.
  induction s as [|c s IH].
  - simpl. rewrite orb_false_r, is_prefix_app. split.
    + intros (post & ->). by exists EmptyString, post.
    + intros ([|] & post & H); [by exists post|done].
  - cbn [contains]. rewrite orb_true_iff, is_prefix_app, IH. split.
    + intros [(post & ->)|(pre & post & ->)].
      * by exists EmptyString, post.
      * by exists (String c pre), post.
    + intros ([|c' pre] & post & H).
      * left. by exists post.
      * right. injection H as -> ->. by exists pre, post.
Qed.

Lemma first_link_Some widths hrefs url :
  first_link widths hrefs = Some url →
  ∃ wbefore w wafter before after,
    widths = wbefore ++ w :: wafter
    ∧ hrefs = before ++ url :: after
    ∧ contains w url = true
    ∧ (∀ a, a ∈ before → contains w a = false)
    ∧ (∀ w' a, w' ∈ wbefore → a ∈ hrefs → contains w' a = false).
Proof.
  induction widths as [|w widths IH]; simpl; [done|].
  destruct (List.find (contains w) hrefs) as [href|] eqn:Ef.
  - intros [= ->]. apply find_first in Ef as (before & after & -> & ? & ?).
    exists [], w, widths, before, after. split_and!; try done.
    by intros w' a ?%elem_of_nil.
  - intros (wb & w0 & wa & before & after & -> & -> & ? & ? & Hpref)%IH.
    exists (w :: wb), w0, wa, before, after. split_and!; try done.
    intros w' a [->|?]%elem_of_cons Ha; [|by apply Hpref].
    by apply (find_nothing _ _ Ef).
Qed.

Lemma first_link_None widths hrefs :
  first_link widths hrefs = None →
  ∀ w a, w ∈ widths → a ∈ hrefs → contains w a = false.
Proof.
  induction widths as [|w widths IH]; simpl; [by intros _ w a ?%elem_of_nil|].
  destruct (List.find (contains w) hrefs) as [href|] eqn:Ef; [done|].
  intros Hl w' a [->|?]%elem_of_cons Ha; [|by apply IH].
  by apply (find_nothing _ _ Ef).
Qed.

(** X3. [get_4k_url_from_detail] returns an [href] of the page that carries
    one of the three width tags: the first anchor, in page order, of the
    most preferred width (3840, then 2560, then 1920) that any anchor
    carries.  The link is never the empty string, so the caller's
    [if dl_url:] only rejects [None].  It returns [None] exactly when there
    is no response or no anchor carries any of the tags. *)
Theorem get_4k_url_from_detail_preference page :
  match get_4k_url_from_detail page with
  | Some url =>
      ∃ hrefs wbefore w wafter before after,
        page = Some hrefs
        ∧ WIDTHS = wbefore ++ w :: wafter
        ∧ hrefs = before ++ url :: after
        ∧ contains w url = true
        ∧ (∀ a, a ∈ before → contains w a = false)
        ∧ (∀ w' a, w' ∈ wbefore → a ∈ hrefs → contains w' a = false)
        ∧ Scraper.truthy (Some url) = Some url
  | None =>
      ∀ hrefs, page = Some hrefs →
               ∀ w a, w ∈ WIDTHS → a ∈ hrefs → contains w a = false
  end.
Proof.
  unfold get_4k_url_from_detail. destruct page as [hrefs|]; [|done].
  destruct (first_link WIDTHS hrefs) as [url|] eqn:E.
  - destruct (first_link_Some _ _ _ E)
      as (wb & w & wa & before & after & Hw & -> & Hc & Hb & Hp).
    exists (before ++ url :: after), wb, w, wa, before, after.
    split_and!; try done.
    destruct url; [|done]. exfalso.
    assert (w ∈ WIDTHS) as Hin by (rewrite Hw; apply elem_of_app; right; left).
    unfold WIDTHS in Hin.
    repeat (apply elem_of_cons in Hin as [->|Hin]; [by vm_compute in Hc|]).
    by apply elem_of_nil in Hin.
  - intros ? [= <-]. by apply first_link_None.
Qed.

End DetailPage.

(** * The scraper: what a run keeps *)

Section ScraperKeeps.
Import State Scraper RunProps RunMore.

Lemma grows_refl r : grows r r.
Proof. by split_and!. Qed.

Lemma grows_trans r1 r2 r3 : grows r1 r2 → grows r2 r3 → grows r1 r3.
Proof.
  intros (? & ? & ? & Hf1) (? & ? & ? & Hf2).
  split_and!; [by etrans|by etrans|by etrans|]. eauto.
Qed.

(** [fetch_item] writes nothing when it fails, and otherwise only its
    destination, with a body that the remote gave and that is large
    enough. *)
Lemma fetch_item_fs args net yyyymm img_id dest fs0 ok fs1 reqs :
  fetch_item args net yyyymm img_id dest fs0 = (ok, fs1, reqs) →
  if ok
  then ∃ url c, get net url = Some c ∧ (50000 ≤ size c)%Z
                ∧ fs1 = <[dest := c]> fs0
  else fs1 = fs0.
Proof.
  assert (∀ ok1 fs2, try_direct_cdn net yyyymm img_id dest fs0 = (ok1, fs2) →
            if ok1 then ∃ url c, get net url = Some c ∧ (50000 ≤ size c)%Z
                                 ∧ fs2 = <[dest := c]> fs0
            else fs2 = fs0) as Hcdn.
  { unfold try_direct_cdn. intros ok1 fs2.
    destruct (get net _) as [c|] eqn:Hget; [|by intros [= <- <-]].
    destruct (size c <? 50000)%Z eqn:Hs; simpl; [by intros [= <- <-]|].
    destruct (starts_with_jpeg c); simpl; intros [= <- <-]; [|done].
    apply Z.ltb_ge in Hs. eauto. }
  assert (∀ url f0 ok1 fs2, download_url net url dest f0 = (ok1, fs2) →
            if ok1 then ∃ u c, get net u = Some c ∧ (50000 ≤ size c)%Z
                               ∧ fs2 = <[dest := c]> f0
            else fs2 = f0) as Hdl.
  { unfold download_url. intros url f0 ok1 fs2.
    destruct (get net url) as [c|] eqn:Hget; [|by intros [= <- <-]].
    destruct (size c <? 50000)%Z eqn:Hs; simpl; intros [= <- <-]; [done|].
    apply Z.ltb_ge in Hs. eauto. }
  unfold fetch_item. destruct (cdn_first args || direct_only args).
  - destruct (try_direct_cdn _ _ _ _ _) as [ok1 fs2] eqn:E1.
    clear E1. pose proof (Hcdn _ _ eq_refl) as E1. simpl in E1.
    destruct (negb ok1 && negb (direct_only args)) eqn:En.
    + apply andb_true_iff in En as [Hok _]. destruct ok1; [done|]. subst fs2.
      destruct (truthy _) as [url|].
      * destruct (download_url _ _ _ _) as [ok2 fs3] eqn:E2.
        apply Hdl in E2. by intros [= <- <- <-].
      * by intros [= <- <- <-].
    + by intros [= <- <- <-].
  - destruct (truthy _) as [url|].
    + destruct (download_url _ _ _ _) as [ok2 fs3] eqn:E2.
      apply Hdl in E2. by intros [= <- <- <-].
    + destruct (try_direct_cdn _ _ _ _ _) as [ok1 fs2] eqn:E1.
      clear E1. pose proof (Hcdn _ _ eq_refl) as E1. simpl in E1.
      by intros [= <- <- <-].
Qed.

Lemma on_disk_true (d : gmap string content) path :
  on_disk d path = true ↔ ∃ c, d !! path = Some c ∧ (50000 < size c)%Z.
Proof.
  unfold on_disk. destruct (d !! path) as [c|].
  - rewrite bool_decide_eq_true. split; [intros ?; by exists c|].
    by intros (? & [= <-] & ?).
  - split; [done|]. by intros (? & ? & _).
Qed.

Lemma process_item_grows args net yyyymm r img_id :
  grows r (process_item args net yyyymm r img_id).
Proof.
  unfold process_item. fold (dest_of yyyymm img_id).
  destruct (on_disk (fs r) (dest_of yyyymm img_id)) eqn:Hdisk.
  { split_and!; simpl; [done|apply union_subseteq_r|done|done]. }
  case_bool_decide; [by split_and!|].
  destruct (fetch_item _ _ _ _ _ _) as [[ok fs1] reqs] eqn:Hfetch.
  apply fetch_item_fs in Hfetch.
  assert (∀ path c, fs r !! path = Some c → (50000 < size c)%Z →
                    path ≠ dest_of yyyymm img_id) as Hne.
  { intros path c Hp Hc ->.
    assert (on_disk (fs r) (dest_of yyyymm img_id) = true)
      by (apply on_disk_true; eauto).
    congruence. }
  destruct ok.
  - destruct Hfetch as (url & c & _ & _ & ->).
    split_and!; simpl; [done|apply union_subseteq_r|done|].
    intros path c' Hp Hc. rewrite lookup_insert_ne; [done|].
    intros <-. by eapply Hne.
  - subst fs1. split_and!; simpl; [done|done|apply union_subseteq_r|].
    intros path c' Hp Hc. rewrite lookup_delete_ne; [done|].
    intros <-. by eapply Hne.
Qed.

Lemma process_items_grows args net yyyymm ids r :
  grows r (fold_left (process_item args net yyyymm) ids r).
Proof.
  revert r. induction ids as [|id ids IH]; intros r; simpl.
  - apply grows_refl.
  - eapply grows_trans; [apply process_item_grows|apply IH].
Qed.

Lemma process_month_grows args net r yyyymm :
  grows r (process_month args net r yyyymm).
Proof.
  unfold process_month. case_bool_decide; [apply grows_refl|].
  assert (∀ r2, grows r2 (checkpoint (with_state (add_done_month yyyymm (st r2)) r2)))
    as Hcp.
  { intros r2. split_and!; simpl; [apply union_subseteq_r|done|done|done]. }
  case_bool_decide.
  - eapply grows_trans; [|apply Hcp]. by split_and!.
  - eapply grows_trans; [|apply Hcp].
    eapply grows_trans; [|apply process_items_grows]. by split_and!.
Qed.

Lemma process_months_grows args net months r :
  grows r (fold_left (process_month args net) months r).
Proof.
  revert r. induction months as [|m months IH]; intros r; simpl.
  - apply grows_refl.
  - eapply grows_trans; [apply process_month_grows|apply IH].
Qed.

Lemma scrape_start args net out state_file r code :
  Scraper.main args net out state_file = Some (r, code) →
  ∃ months,
    Months.generate_months (start args) (end_ args) = Some months
    ∧ r = fold_left (process_month args net)
                    (if reverse args then rev months else months)
                    (start_run args out state_file)
    ∧ code = if bool_decide (n_fail r = 0) then 0%Z else 1%Z.
Proof.
  unfold Scraper.main, start_run.
  destruct (Months.generate_months _ _) as [months|]; [|done].
  intros [= <- <-]. by exists months.
Qed.

Lemma scrape_runs args net out state_file months :
  Months.generate_months (start args) (end_ args) = Some months →
  let r := fold_left (process_month args net)
                     (if reverse args then rev months else months)
                     (start_run args out state_file) in
  Scraper.main args net out state_file
  = Some (r, if bool_decide (n_fail r = 0) then 0%Z else 1%Z).
Proof. intros H. unfold Scraper.main, start_run. by rewrite H. Qed.



(** X5. The scraper never takes a key out of the state: every month and
    key of the state it started from ([--reset] starts from the empty
    state) is still in [done_months], [done_images] and [failed_images]
    at the end. *)
Theorem scraper_state_only_grows args net out state_file r code :
  Scraper.main args net out state_file = Some (r, code) →
  let s0 := if reset args then empty_state else load_state state_file in
  done_months s0 ⊆ done_months (st r)
  ∧ done_images s0 ⊆ done_images (st r)
  ∧ failed_images s0 ⊆ failed_images (st r).
Proof.
  intros (months & _ & -> & _)%scrape_start s0.
  destruct (process_months_grows args net
              (if reverse args then rev months else months)
              (start_run args out state_file)) as (? & ? & ? & _).
  done.
Qed.

Lemma scraper_state_only_grows_witness :
  ∃ r code,
    Scraper.main detail_first tiny_remote ∅
      (Some (mkState ∅ {[ "202412/Frost" ]} {[ "202412/Frost" ]})) = Some (r, code)
    ∧ ({[ "202412/Frost" ]} : gset string) ⊆ failed_images (st r).
Proof.
  destruct (Scraper.main detail_first tiny_remote ∅
              (Some (mkState ∅ {[ "202412/Frost" ]} {[ "202412/Frost" ]})))
    as [[r code]|] eqn:Hmain; [|vm_compute in Hmain; discriminate].
  exists r, code. split; [done|].
  exact (proj2 (proj2 (scraper_state_only_grows _ _ _ _ _ _ Hmain))).
Defined.

End ScraperKeeps.

(** * The scraper: one item, one run *)

Section ScraperOutcomes.
Import State Scraper RunProps RunMore.

(** X6. Each item moves exactly one of the three counters by one.  A
    skipped item makes no request and changes no file, and it is skipped
    only when its file is on disk or its key is in [done_images].  A
    downloaded item has its key in [done_images] and, at its destination, a
    body received from the remote of at least 50000 bytes. *)
Theorem process_item_outcome args net yyyymm r img_id :
  let r' := process_item args net yyyymm r img_id in
  let key := item_key yyyymm img_id in
  let dest := dest_of yyyymm img_id in
  n_dl r' + n_skip r' + n_fail r' = S (n_dl r + n_skip r + n_fail r)
  ∧ (n_skip r' ≠ n_skip r →
     log r' = log r ∧ fs r' = fs r
     ∧ (on_disk (fs r) dest = true ∨ key ∈ done_images (st r)))
  ∧ (n_dl r' ≠ n_dl r →
     key ∈ done_images (st r')
     ∧ ∃ url c, get net url = Some c ∧ (50000 ≤ size c)%Z
                ∧ fs r' !! dest = Some c).
Proof.
  cbv zeta. unfold process_item. fold (dest_of yyyymm img_id).
  destruct (on_disk (fs r) (dest_of yyyymm img_id)) eqn:Hdisk; simpl.
  { split_and!; [lia|auto|lia]. }
  case_bool_decide as Hkey; simpl.
  { split_and!; [lia|auto|lia]. }
  destruct (fetch_item _ _ _ _ _ _) as [[ok fs1] reqs] eqn:Hfetch.
  apply fetch_item_fs in Hfetch. destruct ok; simpl.
  - split_and!; [lia|lia|]. intros _. split.
    + apply elem_of_union_l. by apply elem_of_singleton.
    + destruct Hfetch as (url & c & ? & ? & ->). exists url, c.
      split_and!; [done|done|apply lookup_insert_eq].
  - split_and!; [lia|lia|lia].
Qed.

Lemma process_item_outcome_witness :
  let r' := process_item detail_first tiny_remote "202501" fresh_run "Dunes" in
  n_dl r' + n_skip r' + n_fail r' = 1.
Proof.
  exact (proj1 (process_item_outcome detail_first tiny_remote "202501" fresh_run "Dunes")).
Defined.

Lemma fetch_item_direct_only args net yyyymm img_id dest fs0 :
  direct_only args = true →
  fetch_item args net yyyymm img_id dest fs0
  = (let '(ok, fs1) := try_direct_cdn net yyyymm img_id dest fs0 in
     (ok, fs1, [ReqCdn yyyymm img_id])).
Proof.
  intros Hd. unfold fetch_item. rewrite Hd, orb_true_r.
  destruct (try_direct_cdn _ _ _ _ _) as [ok fs1].
  by rewrite andb_false_r.
Qed.

(** A property of events that holds for the index request, for [FAILED]
    lines and for what [fetch_item] asks holds for the whole log. *)
Lemma log_Forall (P : Event → Prop) args net :
  (∀ m, P (ReqIndex m)) →
  (∀ m id, P (PrintFailed m id)) →
  (∀ m id dest fs0, Forall P (fetch_item args net m id dest fs0).2) →
  ∀ months r, Forall P (log r) →
              Forall P (log (fold_left (process_month args net) months r)).
Proof.
  intros Hindex Hfailed Hfetch.
  assert (∀ m r id, Forall P (log r) → Forall P (log (process_item args net m r id)))
    as Hitem.
  { intros m r id Hr. unfold process_item.
    destruct (on_disk _ _); [done|]. case_bool_decide; [done|].
    pose proof (Hfetch m id (m +:+ "_" +:+ id +:+ ".jpg") (fs r)) as Hf.
    destruct (fetch_item _ _ _ _ _ _) as [[ok fs1] reqs]. simpl in Hf.
    destruct ok; simpl; rewrite ?Forall_app; split_and?; try done.
    by repeat constructor. }
  assert (∀ m ids r, Forall P (log r) →
            Forall P (log (fold_left (process_item args net m) ids r))) as Hitems.
  { intros m ids. induction ids as [|id ids IH]; intros r Hr; simpl; auto. }
  intros months. induction months as [|m months IH]; intros r Hr; simpl; [done|].
  apply IH. unfold process_month. case_bool_decide; [done|].
  assert (Forall P (log (with_event (ReqIndex m) r))) as H1.
  { simpl. apply Forall_app. split; [done|]. by repeat constructor. }
  case_bool_decide; simpl; [done|]. by apply Hitems.
Qed.

(** X7. With [--direct-only] the scraper never asks for a detail page and
    never downloads a link taken from one: every request of the run is an
    archive page or a CDN image. *)
Theorem direct_only_never_asks_detail args net out state_file r code :
  Scraper.main args net out state_file = Some (r, code) →
  direct_only args = true →
  ∀ e, e ∈ log r → uses_detail e = false.
Proof.
  intros (months & _ & -> & _)%scrape_start Hd.
  apply Forall_forall. apply log_Forall; try done.
  intros m id dest fs0. rewrite fetch_item_direct_only by done.
  destruct (try_direct_cdn _ _ _ _ _). simpl. by repeat constructor.
Qed.

Lemma direct_only_never_asks_detail_witness :
  ∃ r code,
    Scraper.main (mkArgs "202501" "202501" true false false false) tiny_remote ∅ None
    = Some (r, code)
    ∧ ∀ e, e ∈ log r → uses_detail e = false.
Proof.
  eexists _, _. split; [by apply (scrape_runs _ _ _ _ ["202501"])|].
  eapply direct_only_never_asks_detail.
  - by apply (scrape_runs _ _ _ _ ["202501"]).
  - reflexivity.
Defined.

Lemma process_month_done args net r yyyymm :
  yyyymm ∈ done_months (st (process_month args net r yyyymm)).
Proof.
  unfold process_month. case_bool_decide; [done|].
  case_bool_decide; simpl; apply elem_of_union_l; by apply elem_of_singleton.
Qed.

(** After a month, the state file holds every month that is done. *)
Lemma process_month_saved args net r yyyymm :
  done_months (st r) ⊆ done_months (load_state (saved r)) →
  let r' := process_month args net r yyyymm in
  done_months (st r') ⊆ done_months (load_state (saved r')).
Proof.
  intros H. unfold process_month. case_bool_decide; [done|].
  case_bool_decide; simpl; done.
Qed.

Lemma process_months_done args net months r :
  done_months (st r) ⊆ done_months (load_state (saved r)) →
  let r' := fold_left (process_month args net) months r in
  (∀ m, m ∈ months → m ∈ done_months (st r'))
  ∧ done_months (st r') ⊆ done_months (load_state (saved r')).
Proof.
  revert r. induction months as [|m months IH]; intros r Hr; simpl.
  - split; [by intros m ?%elem_of_nil|done].
  - destruct (IH (process_month args net r m)) as [Hall Hsaved];
      [by apply process_month_saved|].
    split; [|done]. intros m' [->|?]%elem_of_cons; [|by apply Hall].
    destruct (process_months_grows args net months (process_month args net r m))
      as (Hd & _).
    apply Hd, process_month_done.
Qed.

Lemma elem_of_rev (m : string) (l : list string) : m ∈ rev l ↔ m ∈ l.
Proof. by rewrite !list_elem_of_In, <- in_rev. Qed.

Lemma process_months_skip args net months r :
  (∀ m, m ∈ months → m ∈ done_months (st r)) →
  fold_left (process_month args net) months r = r.
Proof.
  induction months as [|m months IH]; intros H; simpl; [done|].
  assert (process_month args net r m = r) as ->.
  { unfold process_month. rewrite bool_decide_eq_true_2; [done|].
    apply H. left. }
  apply IH. intros m' ?. apply H. by right.
Qed.

(** X8. When a run has ended, every month of its range is in
    [done_months] of the state file.  A second run over the same range that
    loads this file (no [--reset]) sends no request, touches no file and
    returns 0, also when the first run reported failed items. *)
Theorem rerun_does_nothing args net out state_file r code args2 net2 out2 :
  Scraper.main args net out state_file = Some (r, code) →
  start args2 = start args → end_ args2 = end_ args → reset args2 = false →
  Scraper.main args2 net2 out2 (saved r)
  = Some (mkRun (load_state (saved r)) out2 0 0 0 (saved r) [], 0%Z).
Proof.
  intros (months & Hgen & -> & _)%scrape_start Hs He Hreset.
  set (ms := if reverse args then rev months else months).
  destruct (process_months_done args net ms (start_run args out state_file))
    as [Hall Hsaved].
  { unfold start_run; simpl. destruct (reset args); simpl; [|done].
    apply empty_subseteq. }
  fold ms in Hall, Hsaved. cbv zeta in Hall, Hsaved.
  set (r := fold_left (process_month args net) ms (start_run args out state_file))
    in *.
  assert (∀ m, m ∈ months → m ∈ done_months (load_state (saved r))) as Hdone.
  { intros m Hm. apply Hsaved, Hall. unfold ms.
    destruct (reverse args); [|done]. by apply elem_of_rev. }
  unfold Scraper.main. rewrite Hs, He, Hgen, Hreset.
  rewrite process_months_skip; [done|]. simpl.
  intros m Hm. apply Hdone. destruct (reverse args2); [|done].
  by apply elem_of_rev.
Qed.

Lemma rerun_does_nothing_witness :
  ∃ r,
    Scraper.main detail_first tiny_remote ∅ None = Some (r, 1%Z)
    ∧ Scraper.main detail_first tiny_remote ∅ (saved r)
      = Some (mkRun (load_state (saved r)) ∅ 0 0 0 (saved r) [], 0%Z).
Proof.
  eexists. split; [vm_compute; reflexivity|].
  apply (rerun_does_nothing detail_first tiny_remote ∅ None _ 1%Z);
    [vm_compute; reflexivity|reflexivity|reflexivity|reflexivity].
Defined.

End ScraperOutcomes.

(** * The reconciler: outside the window, and with nothing missing *)

Section ReconcilerMore.
Import Catalog State Reconcile Props.

Lemma months_with_catalog_spec months catalog wallpapers m :
  m ∈ (list_to_set (yyyymm <$> catalog_rows (tally months catalog wallpapers))
         : gset string)
  ↔ ∃ row, in_window catalog months row ∧ yyyymm row = m.
Proof.
  rewrite elem_of_list_to_set, list_elem_of_fmap. split.
  - intros (row & -> & Hin). exists row.
    by apply (catalog_rows_window months catalog wallpapers) in Hin.
  - intros (row & Hw & <-). exists row. split; [done|].
    by apply (catalog_rows_window months catalog wallpapers).
Qed.

Lemma months_with_missing_spec months catalog wallpapers m :
  m ∈ (list_to_set (fst <$> missing (tally months catalog wallpapers)) : gset string)
  ↔ ∃ row, in_window catalog months row ∧ yyyymm row = m
           ∧ image_is_present wallpapers (filename row) = false.
Proof.
  rewrite elem_of_list_to_set, list_elem_of_fmap.
  unfold tally; simpl. unfold missing_rows. split.
  - intros (p & -> & (row & -> & [? Hin]%list_elem_of_filter)%list_elem_of_fmap).
    exists row. split; [|done].
    by apply (catalog_rows_window months catalog wallpapers).
  - intros (row & Hw & <- & ?). exists (row_key row). split; [done|].
    apply list_elem_of_fmap_2, list_elem_of_filter. split; [done|].
    by apply (catalog_rows_window months catalog wallpapers) in Hw.
Qed.

(** X9. The reconciler is surgical: a key that no entry of the window
    carries keeps its place in [done_images] and in [failed_images], and a
    month other than the current one with no entry in the window keeps its
    place in [done_months]. *)
Theorem reconcile_leaves_the_rest this_month start end_ catalog wallpapers
    state_file state' code months :
  main this_month start end_ catalog wallpapers state_file = Some (state', code) →
  Months.generate_months start end_ = Some months →
  let prior := load_state state_file in
  (∀ k, (∀ row, in_window catalog months row → row_item_key row ≠ k) →
        (k ∈ done_images state' ↔ k ∈ done_images prior)
        ∧ (k ∈ failed_images state' ↔ k ∈ failed_images prior))
  ∧ (∀ m, m ≠ this_month →
          (∀ row, in_window catalog months row → yyyymm row ≠ m) →
          (m ∈ done_months state' ↔ m ∈ done_months prior)).
Proof.
  intros (months' & Hm & -> & _)%prepare_sync_Some Hgen prior. subst prior.
  assert (months' = months) as -> by congruence.
  rewrite reconcile_spec. cbv zeta. cbn [done_months done_images failed_images].
  split.
  - intros k Hk.
    assert (k ∉ keys_of (present (tally months catalog wallpapers))) as Hp.
    { intros (row & Hw & _ & ->)%elem_of_present_keys. by apply (Hk row). }
    assert (k ∉ keys_of (missing (tally months catalog wallpapers))) as Hmiss.
    { intros (row & Hw & _ & ->)%elem_of_missing_keys. by apply (Hk row). }
    rewrite !elem_of_difference, elem_of_union. tauto.
  - intros m Hne Hm'.
    rewrite elem_of_difference, elem_of_union, elem_of_filter, !elem_of_difference.
    rewrite elem_of_singleton, months_with_catalog_spec, months_with_missing_spec.
    split; [intros [[[? _]|(_ & (row & Hw & Hr) & _)] _]; [done|]|].
    + by destruct (Hm' row Hw).
    + intros Hdone. split; [|done]. left. split; [done|].
      intros (row & Hw & Hr & _). by destruct (Hm' row Hw).
Qed.

Lemma reconcile_leaves_the_rest_witness :
  ∃ state' code,
    main "202502" "202501" "202502" (Some [dunes; heron]) ∅
         (Some (mkState {[ "202412" ]} {[ "202412/Frost" ]} ∅))
    = Some (state', code)
    ∧ ("202412" ∈ done_months state'
       ↔ "202412" ∈ ({[ "202412" ]} : gset string)).
Proof.
  eexists _, _. split; [vm_compute; reflexivity|].
  refine (proj2 (reconcile_leaves_the_rest "202502" "202501" "202502"
                   (Some [dunes; heron]) ∅
                   (Some (mkState {[ "202412" ]} {[ "202412/Frost" ]} ∅))
                   _ _ ["202501"; "202502"] _ _) "202412" _ _).
  - vm_compute. reflexivity.
  - vm_compute. reflexivity.
  - discriminate.
  - intros row (rows & [= <-] & Hin & _).
    repeat (apply elem_of_cons in Hin as [->|Hin]; [discriminate|]).
    by apply elem_of_nil in Hin.
Defined.

(** X10. When the reconciler returns 0, the key of every entry of the
    window is in [done_images], every month of the window that has an entry
    and is not the current month is in [done_months], and [failed_images]
    is what it was. *)
Theorem reconcile_nothing_missing this_month start end_ catalog wallpapers
    state_file state' months :
  main this_month start end_ catalog wallpapers state_file = Some (state', 0%Z) →
  Months.generate_months start end_ = Some months →
  (∀ row, in_window catalog months row →
          row_item_key row ∈ done_images state'
          ∧ (yyyymm row ≠ this_month → yyyymm row ∈ done_months state'))
  ∧ failed_images state' = failed_images (load_state state_file).
Proof.
  intros (months' & Hm & -> & Hcode)%prepare_sync_Some Hgen.
  assert (months' = months) as -> by congruence.
  assert (missing (tally months catalog wallpapers) = []) as Hnone.
  { case_bool_decide as Hd; [done|]. by destruct (missing _). }
  rewrite reconcile_spec. cbv zeta. cbn [done_months done_images failed_images].
  rewrite Hnone. unfold keys_of at 2 3. simpl. split.
  - intros row Hw.
    assert (image_is_present wallpapers (filename row) = true) as Hp.
    { destruct (image_is_present wallpapers (filename row)) eqn:E; [done|].
      assert (row_item_key row ∈ keys_of (missing (tally months catalog wallpapers)))
        as Hin by (apply elem_of_missing_keys; by exists row).
      rewrite Hnone in Hin. by apply not_elem_of_empty in Hin. }
    split.
    + apply elem_of_difference. split; [|apply not_elem_of_empty].
      apply elem_of_union_l, elem_of_present_keys. by exists row.
    + intros Hne. apply elem_of_difference. split.
      * apply elem_of_union_r, elem_of_filter. split; [done|].
        apply elem_of_difference. split; [|apply not_elem_of_empty].
        apply (months_with_catalog_spec months catalog wallpapers). by exists row.
      * by intros ?%elem_of_singleton.
  - apply leibniz_equiv. apply difference_empty.
Qed.

Lemma reconcile_nothing_missing_witness :
  ∃ state',
    main "202502" "202501" "202502" (Some [dunes])
         {[ "202501_Dunes.jpg" := zeros 50000 ]} None = Some (state', 0%Z)
    ∧ row_item_key dunes ∈ done_images state'.
Proof.
  eexists. split; [vm_compute; reflexivity|].
  refine (proj1 (proj1 (reconcile_nothing_missing "202502" "202501" "202502"
                   (Some [dunes]) {[ "202501_Dunes.jpg" := zeros 50000 ]} None
                   _ ["202501"; "202502"] _ _) dunes _)).
  - vm_compute. reflexivity.
  - vm_compute. reflexivity.
  - exists [dunes]. split; [reflexivity|]. split; repeat constructor.
Defined.

(** X11. Without a catalog file the reconciler finds nothing missing: it
    returns 0 and writes the state it found, less the current month in
    [done_months]. *)
Theorem reconcile_without_catalog this_month start end_ wallpapers state_file months :
  Months.generate_months start end_ = Some months →
  let prior := load_state state_file in
  main this_month start end_ None wallpapers state_file
  = Some (mkState (done_months prior ∖ {[this_month]})
                  (done_images prior) (failed_images prior), 0%Z).
Proof.
  intros Hgen prior. unfold main. rewrite Hgen.
  rewrite reconcile_spec. unfold tally, keys_of. simpl.
  do 2 f_equal. fold prior. f_equal.
  - apply leibniz_equiv. set_solver.
  - apply leibniz_equiv. set_solver.
  - apply leibniz_equiv. set_solver.
Qed.

Lemma reconcile_without_catalog_witness :
  main "202502" "202501" "202502" None ∅
       (Some (mkState {[ "202502" ]} ∅ {[ "202501/Dunes" ]}))
  = Some (mkState ({[ "202502" ]} ∖ {[ "202502" ]}) ∅ {[ "202501/Dunes" ]}, 0%Z).
Proof.
  assert (Months.generate_months "202501" "202502" = Some ["202501"; "202502"])
    as Hgen by (vm_compute; reflexivity).
  exact (reconcile_without_catalog "202502" "202501" "202502" ∅
           (Some (mkState {[ "202502" ]} ∅ {[ "202501/Dunes" ]}))
           ["202501"; "202502"] Hgen).
Defined.

End ReconcilerMore.

(** * The default window *)

Section DefaultWindow.
Import Decimal Months Window.

(** X12. Run without [--start] and [--end], the reconciler and the catalog
    builder look at exactly two months, the previous one and the current
    one; the previous month of January is December of the year before. *)
Theorem default_window_two_months (y m : Z) :
  (1 ≤ y ≤ 9999)%Z → (1 ≤ m ≤ 12)%Z → (y, m) ≠ (1, 1)%Z → (y, m) ≠ (9999, 12)%Z →
  let prev := if (m =? 1)%Z then (y - 1, 12)%Z else (y, m - 1)%Z in
  default_window (y, m) = Some (strftime prev, strftime (y, m))
  ∧ month_index prev = (month_index (y, m) - 1)%Z
  ∧ generate_months (strftime prev) (strftime (y, m))
    = Some [strftime prev; strftime (y, m)].
Proof.
  intros Hy Hm Hfirst Hlast prev.
  assert ((1 ≤ fst prev ≤ 9999)%Z ∧ (1 ≤ snd prev ≤ 12)%Z
          ∧ month_index prev = (month_index (y, m) - 1)%Z) as (Hpy & Hpm & Hidx).
  { unfold prev, month_index. destruct (Z.eqb_spec m 1) as [->|?]; simpl.
    - assert (y ≠ 1%Z) by (intros ->; done). lia.
    - lia. }
  split_and!.
  - unfold default_window. simpl.
    assert (mk_datetime y m = Some (y, m)) as ->
      by (apply mk_datetime_Some; split; [done|lia]).
    simpl. unfold prev.
    destruct (Z.eqb_spec m 1) as [->|?].
    + assert (mk_datetime (y - 1) 12 = Some (y - 1, 12)%Z) as ->; [|done].
      apply mk_datetime_Some. split; [done|]. simpl in *. lia.
    + assert (mk_datetime y (m - 1) = Some (y, m - 1)%Z) as ->; [|done].
      apply mk_datetime_Some. split; [done|]. lia.
  - done.
  - unfold generate_months.
    destruct prev as [py pm] eqn:Eprev. simpl in Hpy, Hpm.
    rewrite !parse_strftime by done.
    rewrite (months_loop_fuel _ (py, pm) (y, m)) by (try done; lia).
    rewrite Hidx.
    replace (month_index (y, m) - (month_index (y, m) - 1) + 1)%Z with 2%Z by lia.
    assert (∀ a, seqZ a 2 = [a; (a + 1)%Z]) as ->
      by (intros a; rewrite seqZ_cons by lia; rewrite seqZ_cons by lia;
          rewrite seqZ_nil by lia; do 2 f_equal; lia).
    simpl. rewrite <- Hidx, key_of_month_index by done.
    replace (month_index (py, pm) + 1)%Z with (month_index (y, m)) by lia.
    by rewrite key_of_month_index.
Qed.

Lemma default_window_two_months_witness :
  default_window (2025, 1)%Z = Some ("202412", "202501")
  ∧ generate_months "202412" "202501" = Some ["202412"; "202501"].
Proof.
  destruct (default_window_two_months 2025 1) as (H1 & _ & H2);
    [lia|lia|discriminate|discriminate|].
  split; [exact H1|exact H2].
Defined.

End DefaultWindow.

(** * From the reconciler to the scraper *)

Section Pipeline.
Import Catalog State Reconcile Props Scraper RunProps.

Lemma not_present_not_on_disk (wallpapers : gmap string content) name :
  image_is_present wallpapers name = false → on_disk wallpapers name = false.
Proof.
  unfold image_is_present, big_enough, on_disk, MIN_FILE_SIZE.
  intros [_ H]%orb_false_iff. destruct (wallpapers !! name) as [c|]; [|done].
  apply bool_decide_eq_false in H. apply bool_decide_eq_false. lia.
Qed.

(** X13. What the reconciler finds missing, the scraper attempts: for an
    entry of the window whose file is missing and whose file name is the one
    the scraper writes, the state written by the reconciler makes the
    scraper neither skip the month nor the item, and the first thing the
    scraper then does for the item is to send a request to its first source:
    the CDN with [--cdn-first] or [--direct-only], the detail page
    otherwise. *)
Theorem missing_entry_is_attempted this_month start end_ catalog wallpapers
    state_file state' code months row args net r :
  Reconcile.main this_month start end_ catalog wallpapers state_file
  = Some (state', code) →
  Months.generate_months start end_ = Some months →
  in_window catalog months row →
  image_is_present wallpapers (filename row) = false →
  filename row = dest_of (yyyymm row) (image_id row) →
  st r = state' → fs r = wallpapers →
  let r' := process_item args net (yyyymm row) r (image_id row) in
  (yyyymm row ∉ done_months state')
  ∧ attempted r (yyyymm row) (image_id row)
  ∧ n_skip r' = n_skip r
  ∧ ∃ evs, log r' = log r
                    ++ (if cdn_first args || direct_only args
                        then ReqCdn (yyyymm row) (image_id row)
                        else ReqDetail (yyyymm row) (image_id row)) :: evs.
Proof.
  intros (months' & Hm & -> & _)%prepare_sync_Some Hgen Hw Hmiss Hname Hst Hfs r'.
  assert (months' = months) as -> by congruence.
  assert (row_item_key row ∈ keys_of (missing (tally months catalog wallpapers)))
    as Hk by (apply elem_of_missing_keys; by exists row).
  assert (yyyymm row ∈ (list_to_set (fst <$> missing (tally months catalog wallpapers))
                          : gset string)) as Hmm.
  { apply elem_of_list_to_set, list_elem_of_fmap.
    unfold tally; simpl. unfold missing_rows. exists (row_key row). split; [done|].
    apply list_elem_of_fmap_2, list_elem_of_filter. split; [done|].
    by apply (catalog_rows_window months catalog wallpapers) in Hw. }
  assert (attempted r (yyyymm row) (image_id row)) as Hatt.
  { split.
    - rewrite Hfs, <- Hname. by apply not_present_not_on_disk.
    - rewrite Hst, reconcile_spec. cbv zeta. cbn [done_images].
      rewrite elem_of_difference. unfold row_item_key in Hk. tauto. }
  split_and!; [|done| |].
  - rewrite reconcile_spec. cbv zeta. cbn [done_months].
    rewrite elem_of_difference, elem_of_union, elem_of_filter, !elem_of_difference.
    tauto.
  - subst r'.
    destruct (fetch_item args net (yyyymm row) (image_id row)
                (dest_of (yyyymm row) (image_id row)) (fs r))
      as [[ok fs1] reqs] eqn:Hfetch.
    rewrite (process_item_attempted _ _ _ _ _ _ _ _ Hatt Hfetch).
    by destruct ok.
  - subst r'.
    destruct (fetch_item args net (yyyymm row) (image_id row)
                (dest_of (yyyymm row) (image_id row)) (fs r))
      as [[ok fs1] reqs] eqn:Hfetch.
    rewrite (process_item_attempted _ _ _ _ _ _ _ _ Hatt Hfetch).
    assert (∃ evs, reqs = (if cdn_first args || direct_only args
                           then ReqCdn (yyyymm row) (image_id row)
                           else ReqDetail (yyyymm row) (image_id row)) :: evs)
      as (evs & ->).
    { unfold fetch_item in Hfetch.
      destruct (cdn_first args || direct_only args);
        repeat case_match; simplify_eq; eauto. }
    destruct ok; simpl; eauto.
Qed.

Lemma missing_entry_is_attempted_witness :
  ∃ state' code,
    Reconcile.main "202502" "202501" "202502" (Some [dunes]) ∅
      (Some (mkState {[ "202501" ]} {[ "202501/Dunes" ]} ∅)) = Some (state', code)
    ∧ attempted (mkRun state' ∅ 0 0 0 None []) "202501" "Dunes".
Proof.
  eexists _, _. split; [vm_compute; reflexivity|].
  refine (proj1 (proj2 (missing_entry_is_attempted "202502" "202501" "202502"
            (Some [dunes]) ∅ (Some (mkState {[ "202501" ]} {[ "202501/Dunes" ]} ∅))
            _ _ ["202501"; "202502"] dunes detail_first tiny_remote
            (mkRun _ ∅ 0 0 0 None []) _ _ _ _ _ _ _))).
  - vm_compute. reflexivity.
  - vm_compute. reflexivity.
  - exists [dunes]. split; [reflexivity|]. split; repeat constructor.
  - vm_compute. reflexivity.
  - reflexivity.
  - reflexivity.
  - reflexivity.
Defined.

End Pipeline.

(** * The catalog store: load, month step, main *)

Section CatalogStore.
Import Catalog CatalogProps.

Lemma dict_get_set k v k' (d : dict) :
  dict_get k' (dict_set k v d) = if decide (k = k') then Some v else dict_get k' d.
Proof.
  induction d as [|[k0 v0] d IH]; simpl.
  - by destruct (decide (k = k')).
  - destruct (decide (k0 = k)) as [->|Hne]; simpl.
    + by destruct (decide (k = k')).
    + rewrite IH. destruct (decide (k0 = k')) as [->|?]; [|done].
      by destruct (decide (k = k')).
Qed.

Lemma dict_set_keyed k v (d : dict) :
  k = row_key v → Forall (λ kv, kv.1 = row_key kv.2) d →
  Forall (λ kv, kv.1 = row_key kv.2) (dict_set k v d).
Proof.
  intros Hk. induction 1 as [|[k0 v0] d Hkv Hd IH]; simpl.
  - by repeat constructor.
  - destruct (decide (k0 = k)); by constructor.
Qed.

Lemma last_filter_snoc {A} (P : A → Prop) `{∀ x, Decision (P x)} (l : list A) x :
  last (filter P (l ++ [x])) = if decide (P x) then Some x else last (filter P l).
Proof.
  rewrite filter_app, filter_cons, filter_nil.
  destruct (decide (P x)); [by rewrite last_snoc|by rewrite app_nil_r].
Qed.

Lemma store_rows_get rows (d : dict) k :
  dict_get k (store_rows rows d)
  = match last (filter (λ r, row_key r = k) rows) with
    | Some r => Some r
    | None => dict_get k d
    end.
Proof.
  unfold store_rows. revert d.
  induction rows as [|r rows IH] using rev_ind; intros d; [done|].
  rewrite fold_left_app. simpl. rewrite dict_get_set, last_filter_snoc.
  destruct (decide (row_key r = k)); [done|apply IH].
Qed.

Lemma store_rows_invariants rows (d : dict) :
  NoDup (fst <$> d) → Forall (λ kv, kv.1 = row_key kv.2) d →
  NoDup (fst <$> store_rows rows d)
  ∧ Forall (λ kv, kv.1 = row_key kv.2) (store_rows rows d).
Proof.
  unfold store_rows. revert d.
  induction rows as [|r rows IH]; intros d Hnd Hk; simpl; [done|].
  apply IH; [by apply dict_set_keys_NoDup|by apply dict_set_keyed].
Qed.

Lemma load_existing_keyed file :
  Forall (λ kv, kv.1 = row_key kv.2) (load_existing file).
Proof.
  destruct file as [rows|]; simpl; [|constructor].
  change (fold_left _ rows []) with (store_rows rows []).
  apply store_rows_invariants; constructor.
Qed.

Lemma load_existing_get file k :
  dict_get k (load_existing file)
  = match file with
    | Some rows => last (filter (λ r, row_key r = k) rows)
    | None => None
    end.
Proof.
  destruct file as [rows|]; simpl; [|done].
  change (fold_left _ rows []) with (store_rows rows []).
  rewrite store_rows_get. by destruct (last _).
Qed.

(** X14. [load_existing] keeps one record per [(yyyymm, image_id)]: the
    keys of the mapping are distinct, each record is stored under its own
    key, and for a key that several lines of the file carry the last line
    wins.  Without a file the mapping is empty. *)
Theorem load_existing_last_wins file :
  NoDup (fst <$> load_existing file)
  ∧ Forall (λ kv, kv.1 = row_key kv.2) (load_existing file)
  ∧ (∀ k, dict_get k (load_existing file)
          = match file with
            | Some rows => last (filter (λ r, row_key r = k) rows)
            | None => None
            end).
Proof.
  split_and!.
  - apply load_existing_NoDup.
  - apply load_existing_keyed.
  - apply load_existing_get.
Qed.

Lemma purge_month_invariants month (d : dict) :
  NoDup (fst <$> d) → Forall (λ kv, kv.1 = row_key kv.2) d →
  NoDup (fst <$> purge_month month d)
  ∧ Forall (λ kv, kv.1 = row_key kv.2) (purge_month month d).
Proof.
  intros Hnd Hk. unfold purge_month. split.
  - induction d as [|[k v] d IH]; simpl in *; [constructor|].
    apply NoDup_cons in Hnd as [Hkn Hnd]. apply Forall_cons in Hk as [_ Hk].
    rewrite filter_cons. case_decide; simpl; [|auto].
    apply NoDup_cons. split; [|auto].
    intros ([k' v'] & -> & [? ?]%list_elem_of_filter)%list_elem_of_fmap.
    apply Hkn. by apply (list_elem_of_fmap_2 fst _ (k', v')).
  - rewrite Forall_forall in *. intros kv [_ ?]%list_elem_of_filter. auto.
Qed.

Lemma merge_month_get month new_rows (d : dict) k :
  k.1 ≠ month → Forall (λ r, yyyymm r = month) new_rows →
  dict_get k (merge_month month new_rows d) = dict_get k d.
Proof.
  intros Hk Hrows. unfold merge_month. rewrite store_rows_get.
  rewrite (filter_none (λ r, row_key r = k)).
  - simpl. by apply dict_get_purge_other.
  - eapply Forall_impl; [exact Hrows|]. intros r Hr <-. by apply Hk.
Qed.

Lemma catalog_month_keeps now_ym force page all_rows month all_rows' :
  NoDup (fst <$> all_rows) → Forall (λ kv, kv.1 = row_key kv.2) all_rows →
  catalog_month now_ym force page all_rows month = Some all_rows' →
  (∀ k, k.1 ≠ month → dict_get k all_rows' = dict_get k all_rows)
  ∧ NoDup (fst <$> all_rows')
  ∧ Forall (λ kv, kv.1 = row_key kv.2) all_rows'.
Proof.
  intros Hnd Hk. unfold catalog_month.
  destruct (bool_decide _ && negb force && String.ltb month now_ym).
  { intros ?. simplify_eq. by split_and!. }
  destruct (bool_decide (Archive.get_image_ids page = [])).
  { intros ?. simplify_eq. by split_and!. }
  destruct (assign_dates month (Archive.get_image_ids page)) as [new_rows|] eqn:Ha;
    [|done].
  intros [= <-]. destruct (assign_dates_shape _ _ _ Ha) as [Hmonth _].
  destruct (purge_month_invariants month all_rows Hnd Hk) as [Hnd' Hk'].
  destruct (store_rows_invariants new_rows _ Hnd' Hk') as [? ?].
  split_and!; [by intros k ?; apply merge_month_get|done|done].
Qed.

(** X15. One month of the catalog builder.  A month of the past that has
    entries is left alone unless [--force] is given, and a month whose page
    lists nothing keeps the entries it had; in both cases the mapping is
    returned as it was.  In every case the entries of the other months are
    untouched and the keys stay distinct. *)
Theorem catalog_month_step now_ym force page all_rows month all_rows' :
  NoDup (fst <$> all_rows) → Forall (λ kv, kv.1 = row_key kv.2) all_rows →
  catalog_month now_ym force page all_rows month = Some all_rows' →
  ((filter (λ k : key, k.1 = month) (fst <$> all_rows) ≠ [] ∧ force = false
    ∧ String.ltb month now_ym = true) ∨ Archive.get_image_ids page = [] →
   all_rows' = all_rows)
  ∧ (∀ k, k.1 ≠ month → dict_get k all_rows' = dict_get k all_rows)
  ∧ NoDup (fst <$> all_rows')
  ∧ Forall (λ kv, kv.1 = row_key kv.2) all_rows'.
Proof.
  intros Hnd Hk Hstep. split; [|by eapply catalog_month_keeps].
  revert Hstep. unfold catalog_month.
  destruct (bool_decide _ && negb force && String.ltb month now_ym) eqn:Hskip.
  { intros ?. by simplify_eq. }
  destruct (bool_decide (Archive.get_image_ids page = [])) eqn:Hempty.
  { intros ?. by simplify_eq. }
  intros _ [(Hhas & -> & Hlt)|Hnil].
  - rewrite (bool_decide_eq_true_2 _ Hhas), Hlt in Hskip. done.
  - apply bool_decide_eq_false in Hempty. done.
Qed.

Lemma catalog_month_step_witness :
  catalog_month "202502" false sample_page sample_catalog "202501"
  = Some sample_catalog.
Proof.
  destruct (catalog_month "202502" false sample_page sample_catalog "202501")
    as [d|] eqn:E; [|vm_compute in E; discriminate].
  f_equal.
  refine (proj1 (catalog_month_step "202502" false sample_page sample_catalog
                   "202501" d _ _ E) _).
  - apply load_existing_NoDup.
  - apply load_existing_keyed.
  - left. split_and!; [vm_compute; discriminate|reflexivity|reflexivity].
Defined.








End CatalogStore.

(** * Today's image *)

Section TodaysImage.
Import Decimal Months Catalog CatalogProps Today.

Lemma lookup_today_unique today rows f :
  (∃ row, row ∈ rows ∧ date row = today ∧ filename row = f) →
  (∀ row, row ∈ rows → date row = today → filename row = f) →
  lookup_today today (Some rows) = Some f.
Proof.
  intros (row & Hin & Hd & Hf) Hall. unfold lookup_today.
  destruct (List.find _ rows) as [r|] eqn:E.
  - apply find_some in E as [Hr ?%String.eqb_eq].
    f_equal. apply Hall; [by apply list_elem_of_In|done].
  - apply find_none with (x := row) in E; [|by apply list_elem_of_In].
    apply String.eqb_neq in E. done.
Qed.

(** X18. From the listing to today's wallpaper.  When the catalog holds
    the rows that [assign_dates] derives from a month's listing of [n]
    identifiers (and otherwise only rows of other dates), [lookup_today] on
    day [d] of that month, [1 <= d <= n], returns the file name of the
    identifier listed at position [n - d + 1], whatever the order of the
    rows in the file. *)
Theorem lookup_today_position key year month ids rows others file (d : Z) id :
  parse key = Some (year, month) →
  (Z.of_nat (length ids) ≤ days_in_month year month)%Z →
  assign_dates key ids = Some rows →
  file ≡ₚ rows ++ others →
  Forall (λ r, date r ≠ isoformat (year, month, d)) others →
  (1 ≤ d ≤ Z.of_nat (length ids))%Z →
  ids !! Z.to_nat (Z.of_nat (length ids) - d) = Some id →
  lookup_today (isoformat (year, month, d)) (Some file)
  = Some (key +:+ "_" +:+ id +:+ ".jpg").
Proof.
  intros (Hy & Hm & ? & ?)%parse_Some Hn Hassign Hperm Hothers Hd Hid.
  pose proof (days_in_month_le year month).
  set (n := Z.of_nat (length ids)) in *.
  unfold assign_dates in Hassign. rewrite Hy, Hm in Hassign.
  rewrite assign_rows_Some in Hassign by lia. fold n in Hassign.
  injection Hassign as <-.
  set (i := Z.to_nat (n - d)) in *.
  assert (i < length ids)%nat by (by eapply lookup_lt_Some).
  apply lookup_today_unique.
  - exists (row_at year month n key (1 + Z.of_nat i) id). split_and!.
    + rewrite Hperm. apply elem_of_app. left.
      apply list_elem_of_lookup. exists i.
      rewrite lookup_zip_with, lookup_seqZ_lt by lia. simpl. by rewrite Hid.
    + simpl. replace (n - (1 + Z.of_nat i) + 1)%Z with d by (unfold i; lia). done.
    + done.
  - intros row Hin Hdate. rewrite Hperm in Hin.
    apply elem_of_app in Hin as [Hin|Hin].
    + apply elem_of_lookup_zip_with_1 in Hin as (j & p & id' & -> & Hp & Hid').
      apply lookup_seqZ in Hp as [-> Hj].
      assert (row_day (row_at year month n key (1 + Z.of_nat j) id')
              = row_day (row_at year month n key (1 + Z.of_nat i) id)) as Hday.
      { unfold row_day. rewrite Hdate. simpl.
        replace (n - (1 + Z.of_nat i) + 1)%Z with d by (unfold i; lia). done. }
      rewrite !row_day_row_at in Hday by (unfold i; lia).
      assert (j = i) as -> by (injection Hday; unfold i; lia).
      simpl. congruence.
    + rewrite Forall_forall in Hothers. by destruct (Hothers _ Hin).
Qed.

Lemma lookup_today_position_witness :
  lookup_today "2025-01-02"
    (Some [mkRow "2024-12-31" "202412" "Frost" "202412_Frost.jpg";
           mkRow "2025-01-01" "202501" "C" "202501_C.jpg";
           mkRow "2025-01-02" "202501" "B" "202501_B.jpg";
           mkRow "2025-01-03" "202501" "A" "202501_A.jpg"])
  = Some "202501_B.jpg".
Proof.
  apply (lookup_today_position "202501" 2025 1 ["A"; "B"; "C"]
           [mkRow "2025-01-03" "202501" "A" "202501_A.jpg";
            mkRow "2025-01-02" "202501" "B" "202501_B.jpg";
            mkRow "2025-01-01" "202501" "C" "202501_C.jpg"]
           [mkRow "2024-12-31" "202412" "Frost" "202412_Frost.jpg"] _ 2 "B").
  - reflexivity.
  - vm_compute. discriminate.
  - reflexivity.
  - apply (reverse_Permutation
             [mkRow "2025-01-03" "202501" "A" "202501_A.jpg";
              mkRow "2025-01-02" "202501" "B" "202501_B.jpg";
              mkRow "2025-01-01" "202501" "C" "202501_C.jpg";
              mkRow "2024-12-31" "202412" "Frost" "202412_Frost.jpg"]).
  - constructor; [vm_compute; discriminate|constructor].
  - simpl. lia.
  - reflexivity.
Defined.

End TodaysImage.

(** * Sorting by resolution *)

Section SortByResolution.
Import State Sorter.

Lemma classify_cases width :
  (classify width = "high" ∧ (3840 ≤ width)%Z)
  ∨ (classify width = "medium" ∧ (1920 ≤ width < 3840)%Z)
  ∨ (classify width = "low" ∧ (width < 1920)%Z).
Proof.
  unfold classify, TIERS, classify_in.
  destruct (Z.leb_spec 3840 width); [left; done|].
  destruct (Z.leb_spec 1920 width); [right; left; split; [done|lia]|].
  right; right. destruct (Z.leb_spec 0 width); done.
Qed.

Lemma append_cons c s t : String c s +:+ t = String c (s +:+ t).
Proof. reflexivity. Qed.

Lemma append_nil t : EmptyString +:+ t = t.
Proof. reflexivity. Qed.

Lemma has_slash_app a b : has_slash (a +:+ b) = has_slash a || has_slash b.
Proof.
  induction a as [|c a IH]; [done|].
  rewrite append_cons. simpl. by rewrite IH, orb_assoc.
Qed.

Lemma dest_has_slash tier name : has_slash (tier +:+ "/" +:+ name) = true.
Proof. rewrite !has_slash_app. simpl. by rewrite orb_true_r. Qed.

Lemma dest_inj w name w' name' :
  classify w +:+ "/" +:+ name = classify w' +:+ "/" +:+ name' →
  classify w = classify w' ∧ name = name'.
Proof.
  destruct (classify_cases w) as [[-> _]|[[-> _]|[-> _]]],
           (classify_cases w') as [[-> _]|[[-> _]|[-> _]]];
    rewrite ?append_cons, ?append_nil; intros [=]; done.
Qed.

(** The effect of the loop on a directory that holds the listed files. *)
Lemma sort_files_effect width_of files s0 :
  NoDup files →
  Forall (λ name, has_slash name = false) files →
  (∀ name, name ∈ files → is_Some (dir s0 !! name)) →
  ∃ s, sort_files false width_of s0 files = Some s
    ∧ (∀ name w c, name ∈ files → width_of name = Some w →
         dir s0 !! name = Some c →
         dir s !! (classify w +:+ "/" +:+ name) = Some c ∧ dir s !! name = None)
    ∧ (∀ path, path ∉ files →
         (∀ name w, name ∈ files → width_of name = Some w →
                    path ≠ classify w +:+ "/" +:+ name) →
         dir s !! path = dir s0 !! path)
    ∧ (∀ name, name ∈ files → width_of name = None →
         dir s !! name = dir s0 !! name)
    ∧ errors s = errors s0 + length (filter (λ name, width_of name = None) files)
    ∧ length (moved s) + errors s = length (moved s0) + errors s0 + length files.
Proof.
  revert s0. induction files as [|f files IH]; intros s0 Hnd Hns Hin.
  { exists s0. simpl.
    split_and!; try done; try lia;
      first [by intros ??? ?%elem_of_nil|by intros ? ?%elem_of_nil]. }
  apply NoDup_cons in Hnd as [Hf Hnd]. apply Forall_cons in Hns as [Hfs Hns].
  assert (∀ g, g ∈ files → has_slash g = false) as Hnoslash
    by (by apply Forall_forall).
  destruct (Hin f) as [c0 Hc0]; [by left|].
  (* the first file *)
  assert (∃ s1, sort_file false width_of s0 f = Some s1
            ∧ (∀ path, path ≠ f →
                 (∀ w, width_of f = Some w → path ≠ classify w +:+ "/" +:+ f) →
                 dir s1 !! path = dir s0 !! path)
            ∧ (∀ w, width_of f = Some w →
                 dir s1 !! (classify w +:+ "/" +:+ f) = Some c0 ∧ dir s1 !! f = None)
            ∧ (width_of f = None → dir s1 = dir s0)
            ∧ errors s1 = errors s0 + match width_of f with Some _ => 0 | None => 1 end
            ∧ length (moved s1) + errors s1 = S (length (moved s0) + errors s0))
    as (s1 & Hs1 & Hframe1 & Hmoved1 & Hbad1 & Herr1 & Hcount1).
  { unfold sort_file. destruct (width_of f) as [w|].
    - rewrite Hc0. eexists. split; [done|]. simpl. split_and!.
      + intros path Hp Hd. rewrite lookup_insert_ne by (intros ?; by eapply Hd).
        by rewrite lookup_delete_ne.
      + intros w' [= <-]. split; [apply lookup_insert_eq|].
        rewrite lookup_insert_ne, lookup_delete_eq; [done|].
        intros E. pose proof (dest_has_slash (classify w) f) as Hd.
        rewrite E in Hd. congruence.
      + done.
      + lia.
      + rewrite length_app. simpl. lia.
    - eexists. split; [done|]. simpl. split_and!; try done; lia. }
  destruct (IH s1) as (s & Hs & Hmove & Hframe & Hbad & Herr & Hcount); [done|done| |].
  { intros g Hg. rewrite Hframe1.
    - apply Hin. by right.
    - intros ->. done.
    - intros w _ E. pose proof (dest_has_slash (classify w) f) as Hd.
      rewrite <- E, (Hnoslash g Hg) in Hd. done. }
  exists s. simpl. rewrite Hs1. split; [done|]. split_and!.
  - intros name w c [->|Hname]%elem_of_cons Hw Hc.
    + rewrite Hc0 in Hc. injection Hc as <-.
      destruct (Hmoved1 w Hw) as [Hd1 Hf1]. split.
      * rewrite Hframe; [done| |].
        -- intros Hd. pose proof (dest_has_slash (classify w) f) as Hsl.
           rewrite (Hnoslash _ Hd) in Hsl. done.
        -- intros g w' Hg _ [_ <-]%dest_inj. done.
      * rewrite Hframe; [done|done|].
        intros g w' Hg _ E. pose proof (dest_has_slash (classify w') g) as Hsl.
        rewrite <- E, Hfs in Hsl. done.
    + apply (Hmove name w c Hname Hw). rewrite Hframe1; [done| |].
      * intros ->. done.
      * intros w' _ E. pose proof (dest_has_slash (classify w') f) as Hsl.
        rewrite <- E, (Hnoslash name Hname) in Hsl. done.
  - intros path [Hpf Hpfiles]%not_elem_of_cons Hpd.
    rewrite Hframe; [|done|].
    + apply Hframe1; [done|]. intros w Hw. apply Hpd; [by left|done].
    + intros g w Hg Hw. apply Hpd; [by right|done].
  - intros name [->|Hname]%elem_of_cons Hw.
    + rewrite Hframe; [by rewrite Hbad1| |]; [done|].
      intros g w' Hg _ E. pose proof (dest_has_slash (classify w') g) as Hsl.
      rewrite <- E, Hfs in Hsl. done.
    + rewrite Hbad by done. apply Hframe1.
      * intros ->. done.
      * intros w' _ E. pose proof (dest_has_slash (classify w') f) as Hsl.
        rewrite <- E, (Hnoslash name Hname) in Hsl. done.
  - rewrite Herr, Herr1, filter_cons.
    destruct (width_of f); case_decide; simpl; try done; lia.
  - lia.
Qed.



(** X20. Sorting and the reconciler.  For a listed file of at least 50000
    bytes with no namesake under [high/]: before the sort the reconciler
    finds it present; after the sort it finds it present exactly when its
    width is 3840 or more.  A file moved to [medium/] or [low/] is missing
    for the reconciler. *)
Theorem sorted_file_still_present width_of files (d : gmap string content)
    s code name w c :
  NoDup files →
  Forall (λ name, has_slash name = false) files →
  (∀ name, name ∈ files → is_Some (d !! name)) →
  Sorter.main false width_of files d = Some (s, code) →
  name ∈ files → width_of name = Some w → d !! name = Some c →
  (Reconcile.MIN_FILE_SIZE ≤ size c)%Z →
  d !! ("high/" +:+ name) = None →
  Reconcile.image_is_present d name = true
  ∧ Reconcile.image_is_present (dir s) name = bool_decide (3840 ≤ w)%Z.
Proof.
  intros Hnd Hns Hin Hmain Hname Hw Hc Hsize Hhigh.
  destruct (sort_files_effect width_of files (mkSorting d [] 0) Hnd Hns Hin)
    as (s' & Hs & Hmove & Hframe & _).
  assert (s' = s) as ->.
  { unfold Sorter.main in Hmain. rewrite Hs in Hmain.
    destruct files; [by apply elem_of_nil in Hname|]. by injection Hmain. }
  simpl in *. destruct (Hmove name w c Hname Hw Hc) as [Hdest Hgone].
  unfold Reconcile.image_is_present, Reconcile.big_enough.
  change ("high/" +:+ name) with ("high" +:+ "/" +:+ name) in *.
  rewrite Hc, Hhigh, Hgone. simpl.
  rewrite (bool_decide_eq_true_2 _ Hsize). split; [done|].
  rewrite orb_false_r.
  destruct (classify_cases w) as [[Hcl ?]|Hlow].
  - rewrite Hcl in Hdest. rewrite Hdest, (bool_decide_eq_true_2 _ Hsize).
    symmetry. by apply bool_decide_eq_true_2.
  - rewrite Hframe, Hhigh.
    + symmetry. apply bool_decide_eq_false_2. lia.
    + intros Hf. pose proof (dest_has_slash "high" name) as Hsl.
      rewrite Forall_forall in Hns. rewrite (Hns _ Hf) in Hsl. done.
    + intros g w' Hg Hw' E.
      assert (classify w' = "high" ∧ g = name) as [Hcl' ->].
      { destruct (classify_cases w') as [[Hc' _]|[[Hc' _]|[Hc' _]]];
          rewrite Hc' in E; rewrite ?append_cons, ?append_nil in E;
          first [discriminate E|injection E as <-; done]. }
      assert (w' = w) as -> by congruence.
      destruct Hlow as [[Hcl _]|[Hcl _]]; congruence.
Qed.

Lemma sorted_file_still_present_witness :
  ∃ s code,
    Sorter.main false (λ _, Some 1920%Z) ["a.jpg"] {[ "a.jpg" := Props.zeros 50000 ]}
    = Some (s, code)
    ∧ Reconcile.image_is_present {[ "a.jpg" := Props.zeros 50000 ]} "a.jpg" = true
    ∧ Reconcile.image_is_present (dir s) "a.jpg" = false.
Proof.
  eexists _, _. split; [reflexivity|].
  eapply (sorted_file_still_present (λ _, Some 1920%Z) ["a.jpg"]
            {[ "a.jpg" := Props.zeros 50000 ]} _ _ "a.jpg" 1920%Z (Props.zeros 50000)).
  - repeat constructor. by intros ?%elem_of_nil.
  - repeat constructor.
  - intros name ->%list_elem_of_singleton. by rewrite lookup_singleton_eq.
  - reflexivity.
  - left.
  - reflexivity.
  - apply lookup_singleton_eq.
  - unfold size, Props.zeros. rewrite length_replicate. done.
  - apply lookup_singleton_ne. discriminate.
Defined.

End SortByResolution.

(** * The month range: failures and keys *)

Section MonthRangeMore.
Import Decimal Months.

Lemma months_loop_last fuel cur :
  (1 ≤ fst cur ≤ 9999)%Z → (1 ≤ snd cur ≤ 12)%Z →
  months_loop fuel cur (9999, 12)%Z = None.
Proof.
  revert cur. induction fuel as [|fuel IH]; intros cur Hy Hm; simpl.
  - assert (dt_leb cur (9999, 12)%Z = true) as ->; [|done].
    apply dt_leb_index; [done|done|]. unfold month_index; simpl. lia.
  - assert (dt_leb cur (9999, 12)%Z = true) as ->.
    { apply dt_leb_index; [done|done|]. unfold month_index; simpl. lia. }
    destruct (decide (cur = (9999, 12)%Z)) as [->|Hne]; [done|].
    destruct (next_month_index cur Hy Hm Hne) as (cur' & -> & _ & ? & ?).
    by rewrite IH.
Qed.

Lemma generate_months_raises_cases start end_ :
  generate_months start end_ = None ↔
  parse start = None ∨ parse end_ = None
  ∨ ∃ cur, parse start = Some cur ∧ parse end_ = Some (9999, 12)%Z.
Proof.
  unfold generate_months.
  destruct (parse start) as [cur|] eqn:Hs; [|by split; [left|]].
  destruct (parse end_) as [stop|] eqn:He; [|by split; [right; left|]].
  destruct (parse_range _ _ Hs), (parse_range _ _ He).
  destruct (decide (stop = (9999, 12)%Z)) as [->|Hne].
  - rewrite months_loop_last by done. split; [|done]. intros _. right; right.
    by exists cur.
  - split; [|intros [?|[?|(? & _ & [= ?])]]; done].
    destruct (Z.le_gt_cases (month_index cur) (month_index stop)).
    + rewrite months_loop_fuel by (try done; lia). done.
    + rewrite months_loop_empty by (try done; lia). done.
Qed.


Lemma key_of_index_parse i :
  (12 ≤ i < 12 * 10000)%Z →
  parse (key_of_index i) = Some (i / 12, i mod 12 + 1)%Z
  ∧ String.length (key_of_index i) = 6%nat.
Proof.
  intros Hi. unfold key_of_index. split; [|done].
  apply parse_strftime; Z.div_mod_to_equations; lia.
Qed.

(** X22. The keys that [generate_months] returns are six characters long,
    pairwise distinct, and each reads back ([parse]) as the month at its
    place in the range: the first is the month of [start], each next one
    the month after. *)
Theorem generate_months_keys start end_ months :
  generate_months start end_ = Some months →
  ∃ cur stop,
    parse start = Some cur ∧ parse end_ = Some stop
    ∧ length months = Z.to_nat (month_index stop - month_index cur + 1)
    ∧ (∀ (i : nat) key, months !! i = Some key →
         String.length key = 6%nat
         ∧ ∃ d, parse key = Some d
                ∧ month_index d = (month_index cur + Z.of_nat i)%Z)
    ∧ NoDup months.
Proof.
  intros Hgen.
  assert (generate_months start end_ ≠ None) as Hok by congruence.
  rewrite generate_months_raises_cases in Hok.
  unfold generate_months in Hgen.
  destruct (parse start) as [cur|] eqn:Hs; [|done].
  destruct (parse end_) as [stop|] eqn:He; [|done].
  destruct (parse_range _ _ Hs) as [Hcy Hcm], (parse_range _ _ He) as [Hsy Hsm].
  assert (stop ≠ (9999, 12)%Z) as Hne.
  { intros ->. apply Hok. right; right. by exists cur. }
  exists cur, stop. split; [done|]. split; [done|].
  assert (months = key_of_index <$> seqZ (month_index cur)
                                         (month_index stop - month_index cur + 1))
    as ->.
  { destruct (Z.le_gt_cases (month_index cur) (month_index stop)).
    - rewrite months_loop_fuel in Hgen by (try done; lia). congruence.
    - rewrite months_loop_empty in Hgen by (try done; lia).
      rewrite seqZ_nil by lia. simpl. congruence. }
  assert (∀ (i : nat) key,
            (key_of_index <$> seqZ (month_index cur)
                                   (month_index stop - month_index cur + 1)) !! i
            = Some key →
            String.length key = 6%nat
            ∧ parse key = Some ((month_index cur + Z.of_nat i) / 12,
                                (month_index cur + Z.of_nat i) mod 12 + 1)%Z)
    as Hkeys.
  { intros i key. rewrite list_lookup_fmap.
    destruct (seqZ _ _ !! i) as [j|] eqn:Hj; [|done]. intros [= <-].
    apply lookup_seqZ in Hj as [-> Hi].
    destruct (key_of_index_parse (month_index cur + Z.of_nat i)) as [? ?]; [|done].
    unfold month_index in *. lia. }
  split_and!.
  - by rewrite length_fmap, length_seqZ.
  - intros i key Hkey. destruct (Hkeys i key Hkey) as [? Hp].
    split; [done|]. eexists. split; [exact Hp|].
    unfold month_index; simpl. Z.div_mod_to_equations. lia.
  - apply NoDup_alt. intros i j key Hi Hj.
    destruct (Hkeys i key Hi) as [_ Hpi], (Hkeys j key Hj) as [_ Hpj].
    rewrite Hpi in Hpj. injection Hpj as H1 H2.
    Z.div_mod_to_equations. lia.
Qed.

Lemma generate_months_keys_witness :
  ∃ cur stop,
    parse "202411" = Some cur ∧ parse "202502" = Some stop
    ∧ length ["202411"; "202412"; "202501"; "202502"]
      = Z.to_nat (month_index stop - month_index cur + 1).
Proof.
  destruct (generate_months_keys "202411" "202502"
              ["202411"; "202412"; "202501"; "202502"])
    as (cur & stop & ? & ? & ? & _); [vm_compute; reflexivity|].
  by exists cur, stop.
Defined.

End MonthRangeMore.

(** * The order of a month in the catalog file *)

Section CalendarOrder.
Import Decimal Months Catalog CatalogProps.

Lemma ascii_compare_refl c : Ascii.compare c c = Eq.
Proof. unfold Ascii.compare. apply N.compare_refl. Qed.

Lemma string_leb_prefix p a b :
  String.leb (p +:+ a) (p +:+ b) = String.leb a b.
Proof.
  unfold String.leb. induction p as [|c p IH]; [done|].
  change (String c p +:+ a) with (String c (p +:+ a)).
  change (String c p +:+ b) with (String c (p +:+ b)).
  simpl. by rewrite ascii_compare_refl.
Qed.

Lemma ascii_compare_digit a b :
  (0 ≤ a < 10)%Z → (0 ≤ b < 10)%Z →
  Ascii.compare (ascii_of_digit a) (ascii_of_digit b) = (a ?= b)%Z.
Proof.
  intros Ha Hb. unfold Ascii.compare, ascii_of_digit.
  rewrite !N_ascii_embedding by (rewrite !Z.mod_small by lia; lia).
  rewrite !Z.mod_small by lia.
  rewrite Z2N.inj_compare by lia. apply Z.add_compare_mono_l.
Qed.

Lemma pad2_leb d1 d2 :
  (0 ≤ d1 < 100)%Z → (0 ≤ d2 < 100)%Z → (d2 < d1)%Z →
  String.leb (pad2 d1) (pad2 d2) = false.
Proof.
  intros H1 H2 Hlt. unfold String.leb, pad2. simpl.
  assert (ascii_of_digit d1 = ascii_of_digit (d1 mod 10)) as ->
    by (unfold ascii_of_digit; by rewrite Z.mod_mod).
  assert (ascii_of_digit d2 = ascii_of_digit (d2 mod 10)) as ->
    by (unfold ascii_of_digit; by rewrite Z.mod_mod).
  rewrite !ascii_compare_digit by (Z.div_mod_to_equations; lia).
  destruct (Z.compare_spec (d1 / 10) (d2 / 10)) as [E|E|E].
  - destruct (Z.compare_spec (d1 mod 10) (d2 mod 10)); [| |done];
      Z.div_mod_to_equations; lia.
  - Z.div_mod_to_equations; lia.
  - done.
Qed.

Lemma isoformat_leb year month d1 d2 :
  (0 ≤ d1 < 100)%Z → (0 ≤ d2 < 100)%Z → (d2 < d1)%Z →
  String.leb (isoformat (year, month, d1)) (isoformat (year, month, d2)) = false.
Proof.
  intros. unfold isoformat. rewrite !string_leb_prefix. by apply pad2_leb.
Qed.

Lemma insert_row_last r l :
  Forall (λ x, String.leb (date r) (date x) = false) l →
  insert_row r l = l ++ [r].
Proof.
  induction 1 as [|x l Hx Hl IH]; simpl; [done|]. by rewrite Hx, IH.
Qed.

Lemma sorted_by_date_reverse rows :
  StronglySorted (λ a b, String.leb (date a) (date b) = false) rows →
  sorted_by_date rows = reverse rows.
Proof.
  induction 1 as [|r rows Hs IH Hr]; [done|]. simpl.
  rewrite IH, reverse_cons. apply insert_row_last.
  apply Forall_forall. intros x Hx. rewrite elem_of_reverse in Hx.
  rewrite Forall_forall in Hr. by apply Hr.
Qed.

(** X23. In the catalog file a month reads in calendar order: the rows that
    [assign_dates] derives from a listing (most recent first) are written by
    [write_csv] in the reverse order, day 1 first. *)
Theorem month_written_in_calendar_order key year month ids rows :
  parse key = Some (year, month) →
  (Z.of_nat (length ids) ≤ days_in_month year month)%Z →
  assign_dates key ids = Some rows →
  write_csv rows = header :: (row_line <$> reverse rows).
Proof.
  intros (Hy & Hm & ? & ?)%parse_Some Hn Hassign.
  pose proof (days_in_month_le year month).
  unfold assign_dates in Hassign. rewrite Hy, Hm in Hassign.
  rewrite assign_rows_Some in Hassign by lia. injection Hassign as <-.
  unfold write_csv. do 2 f_equal. apply sorted_by_date_reverse.
  set (n := Z.of_nat (length ids)) in *.
  assert (∀ position, (1 ≤ position)%Z →
            (position + Z.of_nat (length ids) ≤ n + 1)%Z →
            StronglySorted (λ a b, String.leb (date a) (date b) = false)
              (zip_with (row_at year month n key)
                 (seqZ position (Z.of_nat (length ids))) ids)) as Hsorted.
  { assert (n ≤ 31)%Z as Hn31 by lia.
    clearbody n. clear Hn. induction ids as [|id ids IH]; intros position Hp Hlen.
    - constructor.
    - rewrite seqZ_cons by (cbn [length]; lia).
      replace (Z.pred (Z.of_nat (length (id :: ids))))
        with (Z.of_nat (length ids)) by (simpl; lia).
      cbn [zip_with]. cbn [length] in Hlen.
      constructor; [apply IH; lia|].
      apply Forall_forall. intros row Hrow.
      apply elem_of_lookup_zip_with_1 in Hrow as (j & p & id' & -> & Hj & _).
      apply lookup_seqZ in Hj as [-> Hj]. simpl.
      apply isoformat_leb; lia. }
  apply Hsorted; lia.
Qed.

Lemma month_written_in_calendar_order_witness :
  write_csv [mkRow "2025-01-02" "202501" "B" "202501_B.jpg";
             mkRow "2025-01-01" "202501" "A" "202501_A.jpg"]
  = [header; ["2025-01-01"; "202501"; "A"; "202501_A.jpg"];
             ["2025-01-02"; "202501"; "B"; "202501_B.jpg"]].
Proof.
  apply (month_written_in_calendar_order "202501" 2025 1 ["B"; "A"]).
  - reflexivity.
  - vm_compute. discriminate.
  - reflexivity.
Defined.

End CalendarOrder.
